(** * Auth service: repository, request schemas and controller

    A shallow embedding of
    - [src/api/v1/auth/repositories/auth.repository.ts] (class [AuthRepository]),
    - the zod request schemas ([registerUserSchema], [loginUserSchema],
      [resetPasswordSchema], [updateAuthSchema]),
    - the controller [AuthController],
    together with the properties of the account lifecycle that they decide.

    Conventions of the model.
    - A JavaScript string is the [string] of its UTF-16 code units, each of
      them below 256 (the Latin-1 range: the letter E acute is the one code
      unit 201, the no-break space the code unit 160); on these strings
      [trim] and [toLowerCase] are the JavaScript methods.
    - A JavaScript number that counts or indexes (page, limit, total) is an
      integer of [Z]; only [Math.ceil (total / limit)] can leave the integers
      and has its own result type.
    - A plain object is the list of its own (key, value) pairs in insertion
      order; reading a key that is absent gives [JUndefined].
    - An [async] method is a state transformer over the two collections; a
      rejected promise is the [Throw] outcome. *)

From Stdlib Require Import List String Ascii ZArith Bool Lia Sorted Permutation.
Import ListNotations.
Open Scope string_scope.
Open Scope list_scope.

Set Implicit Arguments.

(* ------------------------------------------------------------------ *)
(** ** JavaScript strings *)

Module Js.

(** The white space and line terminators of JavaScript below 256: tab,
    line feed, vertical tab, form feed, carriage return, space and the
    no-break space. *)
Definition is_space (c : ascii) : bool :=
  let n := nat_of_ascii c in
  Nat.eqb n 32 || (Nat.leb 9 n && Nat.leb n 13) || Nat.eqb n 160.

Fixpoint trimStart (s : string) : string :=
  match s with
  | EmptyString => EmptyString
  | String c s' => if is_space c then trimStart s' else s
  end.

Fixpoint trimEnd (s : string) : string :=
  match s with
  | EmptyString => EmptyString
  | String c s' =>
      match trimEnd s' with
      | EmptyString => if is_space c then EmptyString else String c EmptyString
      | t => String c t
      end
  end.

(** [s.trim()] *)
Definition trim (s : string) : string := trimEnd (trimStart s).

Definition is_upper (c : ascii) : bool :=
  let n := nat_of_ascii c in Nat.leb 65 n && Nat.leb n 90.

Definition is_lower (c : ascii) : bool :=
  let n := nat_of_ascii c in Nat.leb 97 n && Nat.leb n 122.

Definition is_digit (c : ascii) : bool :=
  let n := nat_of_ascii c in Nat.leb 48 n && Nat.leb n 57.

(** The code units below 256 that have a lower case form: A to Z, and the
    accented capitals 192 to 222 but for the multiplication sign 215. *)
Definition has_lower_case (c : ascii) : bool :=
  let n := nat_of_ascii c in
  is_upper c || (Nat.leb 192 n && Nat.leb n 222 && negb (Nat.eqb n 215)).

Definition lower_char (c : ascii) : ascii :=
  if has_lower_case c then ascii_of_nat (nat_of_ascii c + 32) else c.

(** The string of a list of code units. *)
Definition code_units (l : list nat) : string :=
  List.fold_right (fun n s => String (ascii_of_nat n) s) EmptyString l.

(** [s.toLowerCase()] *)
Fixpoint toLowerCase (s : string) : string :=
  match s with
  | EmptyString => EmptyString
  | String c s' => String (lower_char c) (toLowerCase s')
  end.

Fixpoint all_chars (p : ascii -> bool) (s : string) : bool :=
  match s with
  | EmptyString => true
  | String c s' => p c && all_chars p s'
  end.

Fixpoint some_char (p : ascii -> bool) (s : string) : bool :=
  match s with
  | EmptyString => false
  | String c s' => p c || some_char p s'
  end.

(** A string is truthy when it is not empty. *)
Definition nonempty (s : string) : bool :=
  match s with EmptyString => false | _ => true end.

(** [xs.includes(x)] on an array of strings. *)
Definition includes (xs : list string) (x : string) : bool :=
  existsb (String.eqb x) xs.

(* ---------------------------------------------------------------- *)
(** ** JavaScript values and plain objects *)

#[local] Unset Elimination Schemes.
Inductive JsVal : Type :=
| JUndefined
| JNull
| JBool (b : bool)
| JStr (s : string)
| JDate (ms : Z)
| JArr (xs : list JsVal)
| JObj (fields : list (string * JsVal)).
#[local] Set Elimination Schemes.

Definition Object := list (string * JsVal).

(** [o.k] *)
Fixpoint get_prop (k : string) (o : Object) : JsVal :=
  match o with
  | [] => JUndefined
  | (k', v) :: o' => if String.eqb k k' then v else get_prop k o'
  end.

(** [o.k = v] *)
Fixpoint set_prop (k : string) (v : JsVal) (o : Object) : Object :=
  match o with
  | [] => [(k, v)]
  | (k', v') :: o' =>
      if String.eqb k k' then (k, v) :: o' else (k', v') :: set_prop k v o'
  end.

(** [Object.keys(o)] *)
Definition keys (o : Object) : list string := map fst o.

(** [k in o] *)
Definition has_key (k : string) (o : Object) : bool := includes (keys o) k.

(** [v === undefined] *)
Definition is_undefined (v : JsVal) : bool :=
  match v with
  | JUndefined => true
  | _ => false
  end.

(** [v ?? d] *)
Definition nullish (v d : JsVal) : JsVal :=
  match v with
  | JUndefined | JNull => d
  | _ => v
  end.

(** The keys that survive [JSON.stringify]: those whose value is not
    [undefined]. *)
Definition json_keys (o : Object) : list string :=
  keys (filter (fun kv => match snd kv with JUndefined => false | _ => true end) o).

(** [Math.ceil (a / b)] for integers [a >= 0] and [b]: the quotient of the
    source is a floating-point division, which is infinite or not a number
    when [b] is zero. *)
Inductive JsNumber : Type :=
| Num (z : Z)
| PosInfinity
| NaN.

Definition ceil_div (a b : Z) : JsNumber :=
  if Z.eqb b 0 then (if Z.eqb a 0 then NaN else PosInfinity)
  else Num (- ((- a) / b))%Z.

End Js.
Import Js.

(* ------------------------------------------------------------------ *)
(** ** Outcomes of asynchronous calls *)

(** The members of [ErrorCode] that the modelled code names. *)
Inductive ErrorCode : Type :=
| BAD_REQUEST
| NOT_FOUND
| CONFLICT
| INTERNAL_ERROR.

Record ApiError : Type := mkApiError {
  message : string;
  statusCode : Z;
  code : ErrorCode
}.

Inductive StoreError : Type :=
| DuplicateKey (path : string)
| CastError
| BadValue
| StoreUnavailable.

Inductive Exn : Type :=
| StoreExn (e : StoreError)
| ApiExn (e : ApiError).

Inductive Result (A : Type) : Type :=
| Ok (a : A)
| Throw (e : Exn).
Arguments Ok {A} a.
Arguments Throw {A} e.

(* ------------------------------------------------------------------ *)
(** ** The document store

    The two mongoose models of the code: [AuthUser] (credentials) and [User]
    (profiles).  A document is its [_id] and its other paths.  The world
    also keeps the trace of the calls made on the models and the errors
    handed to [logger.error]. *)

Definition ObjectId := string.

Record Doc : Type := mkDoc {
  _id : ObjectId;
  props : Object
}.

Inductive StoreCall : Type :=
| CallFind
| CallCountDocuments
| CallAuthCreate
| CallUserCreate
| CallFindOne
| CallFindById
| CallFindByIdAndUpdate
| CallFindByIdAndDelete
| CallStartSession
| CallStartTransaction
| CallCommitTransaction
| CallAbortTransaction.

Record World : Type := mkWorld {
  authusers : list Doc;
  users : list Doc;
  calls : list StoreCall;
  logged : list Exn
}.

(** The stored state an operation can change: both collections. *)
Definition stores (w : World) : list Doc * list Doc := (authusers w, users w).

(** The spelling of an [ObjectId]: [toString()] gives the 24 hex digits in
    lower case, and a string of 24 hex digits is read as an [ObjectId]
    whatever the case of its digits.  (A string of 12 characters, which
    some versions of the driver read as 12 bytes, is not read so here.) *)
Definition canonical (id : string) : ObjectId := toLowerCase id.

(** What the code takes from its surroundings.
    - [down c]: the call [c] on a model or on the session is rejected by
      the store (it is unreachable, times out, ...).
    - [nextObjectId], [now]: the id and the timestamp the store gives to
      the next created credential.
    - [isValid]: [mongoose.Types.ObjectId.isValid] on strings; it is taken
      to accept hex strings only.
    - [regexTest pat opts s]: the store's [$regex] match of [s].
    - [rejected_commit_applied]: whether a commit that the store rejects
      has been applied all the same (its outcome is not known to the
      caller). *)
Record Env : Type := mkEnv {
  down : StoreCall -> bool;
  nextObjectId : string;
  now : Z;
  isValid : string -> bool;
  regexTest : string -> string -> string -> bool;
  rejected_commit_applied : bool
}.

(** The id of the next created credential, as an [ObjectId]. *)
Definition newObjectId (env : Env) : ObjectId := canonical (nextObjectId env).

(** *** A small monad for the asynchronous code *)

Definition M (A : Type) : Type := World -> Result A * World.

Definition ret {A} (a : A) : M A := fun w => (Ok a, w).

Definition throw {A} (e : Exn) : M A := fun w => (Throw e, w).

Definition bind {A B} (m : M A) (k : A -> M B) : M B :=
  fun w =>
    match m w with
    | (Ok a, w') => k a w'
    | (Throw e, w') => (Throw e, w')
    end.

(** [try { body } catch (err) { handler }] *)
Definition try_catch {A} (body : M A) (handler : Exn -> M A) : M A :=
  fun w =>
    match body w with
    | (Ok a, w') => (Ok a, w')
    | (Throw e, w') => handler e w'
    end.

(** [Promise.all([a, b])]: both calls are issued; the first rejection, in
    the order of the array, is the rejection of the whole. *)
Definition promise_all2 {A B} (a : M A) (b : M B) : M (A * B) :=
  fun w =>
    let (ra, w1) := a w in
    let (rb, w2) := b w1 in
    match ra, rb with
    | Ok x, Ok y => (Ok (x, y), w2)
    | Throw e, _ => (Throw e, w2)
    | _, Throw e => (Throw e, w2)
    end.

Declare Scope async_scope.
Delimit Scope async_scope with async.
Notation "x <- c1 ;; c2" := (bind c1 (fun x => c2))
  (at level 61, c1 at next level, right associativity) : async_scope.
Notation "c1 ;; c2" := (bind c1 (fun _ => c2))
  (at level 61, right associativity) : async_scope.
Open Scope async_scope.

(** [logger.error(msg, err)] *)
Definition logger_error (e : Exn) : M unit :=
  fun w => (Ok tt, mkWorld (authusers w) (users w) (calls w) (logged w ++ [e])).

(* ------------------------------------------------------------------ *)
(** ** Queries: filters, sort orders, projections *)

(** The filters the repository builds: [{}], [{ path: value }],
    [{ path: { $regex, $options } }] and [{ $or: [f, g] }]. *)
Inductive Filter : Type :=
| FAll
| FEq (path : string) (value : string)
| FRegex (path : string) (pattern options : string)
| FOr (f g : Filter).

(** Rank of a value in the store's comparison order across types
    (null and missing, then strings, objects, arrays, booleans, dates). *)
Definition bson_rank (v : JsVal) : nat :=
  match v with
  | JUndefined | JNull => 0
  | JStr _ => 1
  | JObj _ => 2
  | JArr _ => 3
  | JBool _ => 4
  | JDate _ => 5
  end.

(** The store's order on the values of a sorted path; strings compare by
    code unit, and two objects or two arrays are left in their order. *)
Definition bson_leb (a b : JsVal) : bool :=
  match a, b with
  | JStr s, JStr t => String.leb s t
  | JBool x, JBool y => implb x y
  | JDate x, JDate y => Z.leb x y
  | _, _ => Nat.leb (bson_rank a) (bson_rank b)
  end.

(** A sort specification [{ [path]: 1 | -1 }]. *)
Record SortSpec : Type := mkSort {
  sort_path : string;
  sort_dir : Z
}.

(** [a] may come before [b] under the sort specification. *)
Definition sort_leb (s : SortSpec) (a b : Doc) : bool :=
  if Z.eqb (sort_dir s) 1
  then bson_leb (get_prop (sort_path s) (props a)) (get_prop (sort_path s) (props b))
  else bson_leb (get_prop (sort_path s) (props b)) (get_prop (sort_path s) (props a)).

Section Sorting.
Variable A : Type.
Variable le : A -> A -> bool.

Fixpoint insert_sorted (x : A) (l : list A) : list A :=
  match l with
  | [] => [x]
  | y :: l' => if le x y then x :: l else y :: insert_sorted x l'
  end.

(** The sort of the model is the stable insertion sort.  The store leaves
    the order of documents with equal sort keys open; what depends on that
    order is stated for documents whose keys differ. *)
Fixpoint sort_by (l : list A) : list A :=
  match l with
  | [] => []
  | x :: l' => insert_sorted x (sort_by l')
  end.
End Sorting.

(** [.select("p1 p2 ...")] on a lean document: [_id] and the listed paths. *)
Definition select (paths : list string) (d : Doc) : Doc :=
  mkDoc (_id d) (filter (fun kv => includes paths (fst kv)) (props d)).

(** [.skip(n)]: a negative skip is refused by the store. *)
Definition apply_skip (n : Z) (l : list Doc) : option (list Doc) :=
  if Z.ltb n 0 then None else Some (skipn (Z.to_nat n) l).

(** [.limit(n)]: zero means no limit, and the store takes a negative limit
    for its absolute value. *)
Definition apply_limit (n : Z) (l : list Doc) : list Doc :=
  if Z.eqb n 0 then l else firstn (Z.abs_nat n) l.

(** What a created document keeps of an object literal: a member whose
    value is [undefined] is not stored. *)
Definition defined_members (o : Object) : Object :=
  filter (fun kv => match snd kv with JUndefined => false | _ => true end) o.

(** One path of an update document applied to the stored paths; a path
    whose new value is [undefined] is left out of the update. *)
Definition apply_update (update : Object) (o : Object) : Object :=
  fold_left
    (fun acc kv => match snd kv with
                   | JUndefined => acc
                   | v => set_prop (fst kv) v acc
                   end)
    update o.

(** The document is the one an id denotes: its [_id] is that id in
    canonical spelling. *)
Definition has_id (id : string) (d : Doc) : bool :=
  String.eqb (_id d) (canonical id).

Fixpoint replace_doc (id : string) (d' : Doc) (l : list Doc) : list Doc :=
  match l with
  | [] => []
  | d :: l' => if has_id id d then d' :: l' else d :: replace_doc id d' l'
  end.

Fixpoint remove_doc (id : string) (l : list Doc) : list Doc :=
  match l with
  | [] => []
  | d :: l' => if has_id id d then l' else d :: remove_doc id l'
  end.

(** Two documents collide on a unique path when both hold the same string
    there. *)
Definition same_at (path : string) (a b : Doc) : bool :=
  match get_prop path (props a), get_prop path (props b) with
  | JStr s, JStr t => String.eqb s t
  | _, _ => false
  end.

(** The writes of an open transaction, not yet visible in the collections. *)
Record Session : Type := mkSession {
  txn_authusers : list Doc;
  txn_users : list Doc
}.

Section Store.
Variable env : Env.

Fixpoint matches (f : Filter) (d : Doc) : bool :=
  match f with
  | FAll => true
  | FEq path value =>
      match get_prop path (props d) with
      | JStr s => String.eqb s value
      | _ => false
      end
  | FRegex path pattern options =>
      match get_prop path (props d) with
      | JStr s => regexTest env pattern options s
      | _ => false
      end
  | FOr f g => matches f d || matches g d
  end.

(** A call on a model: it is recorded, and rejected when the store is
    down for it. *)
Definition store_call (c : StoreCall) : M unit :=
  fun w =>
    let w' := mkWorld (authusers w) (users w) (calls w ++ [c]) (logged w) in
    if down env c then (Throw (StoreExn StoreUnavailable), w') else (Ok tt, w').

Definition read_authusers : M (list Doc) := fun w => (Ok (authusers w), w).
Definition read_users : M (list Doc) := fun w => (Ok (users w), w).
Definition write_authusers (l : list Doc) : M unit :=
  fun w => (Ok tt, mkWorld l (users w) (calls w) (logged w)).
Definition write_users (l : list Doc) : M unit :=
  fun w => (Ok tt, mkWorld (authusers w) l (calls w) (logged w)).

(** The cast of a string to an [ObjectId] that the [...ById] methods of a
    model perform on their argument. *)
Definition cast_id (id : string) : M ObjectId :=
  if isValid env id then ret (canonical id) else throw (StoreExn CastError).

(** [AuthUser.find(filter).sort(sort).skip(skip).limit(limit).select(paths).lean()] *)
Definition AuthUser_find (f : Filter) (s : SortSpec) (skip limit : Z)
           (paths : list string) : M (list Doc) :=
  store_call CallFind ;;
  docs <- read_authusers ;;
  match apply_skip skip (sort_by (sort_leb s) (filter (matches f) docs)) with
  | None => throw (StoreExn BadValue)
  | Some rest => ret (map (select paths) (apply_limit limit rest))
  end.

(** [AuthUser.countDocuments(filter)] *)
Definition AuthUser_countDocuments (f : Filter) : M Z :=
  store_call CallCountDocuments ;;
  docs <- read_authusers ;;
  ret (Z.of_nat (List.length (filter (matches f) docs))).

(** [AuthUser.findOne(filter).lean()] *)
Definition AuthUser_findOne (f : Filter) : M (option Doc) :=
  store_call CallFindOne ;;
  docs <- read_authusers ;;
  ret (find (matches f) docs).

(** [AuthUser.findById(id).lean()] *)
Definition AuthUser_findById (id : string) : M (option Doc) :=
  oid <- cast_id id ;;
  store_call CallFindById ;;
  docs <- read_authusers ;;
  ret (find (has_id oid) docs).

(** [AuthUser.findByIdAndUpdate(id, update, { new: true }).lean()] *)
Definition AuthUser_findByIdAndUpdate (id : string) (update : Object)
  : M (option Doc) :=
  oid <- cast_id id ;;
  store_call CallFindByIdAndUpdate ;;
  docs <- read_authusers ;;
  match find (has_id oid) docs with
  | None => ret None
  | Some d =>
      let d' := mkDoc (_id d) (apply_update update (props d)) in
      write_authusers (replace_doc oid d' docs) ;;
      ret (Some d')
  end.

(** [AuthUser.findByIdAndDelete(id).lean()] *)
Definition AuthUser_findByIdAndDelete (id : string) : M (option Doc) :=
  oid <- cast_id id ;;
  store_call CallFindByIdAndDelete ;;
  docs <- read_authusers ;;
  match find (has_id oid) docs with
  | None => ret None
  | Some d => write_authusers (remove_doc oid docs) ;; ret (Some d)
  end.

(** Modelled from the spec: the schema of [AuthUser] (models/auth.model)
    is not part of the sources.  From the spec, [username] and [email]
    are each globally unique, the uniqueness is enforced at the store
    boundary, and a credential carries the timestamps [createdAt] and
    [updatedAt]; so a created credential gets its [_id] and both
    timestamps from the store, and is refused when its [_id], [username]
    or [email] is already taken. *)
Definition auth_conflict (d : Doc) (existing : list Doc) : option StoreError :=
  if existsb (has_id (_id d)) existing then Some (DuplicateKey "_id")
  else if existsb (same_at "username" d) existing then Some (DuplicateKey "username")
  else if existsb (same_at "email" d) existing then Some (DuplicateKey "email")
  else None.

(** [AuthUser.create([doc], { session })], giving the created document:
    the code reads element 0 of the returned array. *)
Definition AuthUser_create (doc : Object) (s : Session) : M (Doc * Session) :=
  store_call CallAuthCreate ;;
  docs <- read_authusers ;;
  let d := mkDoc (newObjectId env)
                 (defined_members doc
                  ++ [("createdAt", JDate (now env)); ("updatedAt", JDate (now env))]) in
  match auth_conflict d (docs ++ txn_authusers s) with
  | Some e => throw (StoreExn e)
  | None => ret (d, mkSession (txn_authusers s ++ [d]) (txn_users s))
  end.

(** [User.create([doc], { session })]; the profile's [_id] is given by the
    caller and must be free. *)
Definition User_create (d : Doc) (s : Session) : M Session :=
  store_call CallUserCreate ;;
  docs <- read_users ;;
  if existsb (has_id (_id d)) (docs ++ txn_users s)
  then throw (StoreExn (DuplicateKey "_id"))
  else ret (mkSession (txn_authusers s)
                      (txn_users s ++ [mkDoc (_id d) (defined_members (props d))])).

(** [mongoose.startSession()]: a call on the store, which may reject it. *)
Definition startSession : M Session :=
  store_call CallStartSession ;; ret (mkSession [] []).

(** [session.startTransaction()]: synchronous; what it throws (a store
    that has no transactions) is thrown inside the [async] method. *)
Definition startTransaction : M unit := store_call CallStartTransaction.

(** [session.commitTransaction()]: the pending writes become visible.  The
    store may reject the commit; the writes are then visible or not as the
    store has it. *)
Definition commitTransaction (s : Session) : M unit :=
  fun w =>
    let kept := mkWorld (authusers w) (users w)
                        (calls w ++ [CallCommitTransaction]) (logged w) in
    let applied := mkWorld (authusers w ++ txn_authusers s) (users w ++ txn_users s)
                           (calls w ++ [CallCommitTransaction]) (logged w) in
    if down env CallCommitTransaction
    then (Throw (StoreExn StoreUnavailable),
          if rejected_commit_applied env then applied else kept)
    else (Ok tt, applied).

(** [session.abortTransaction()]: the pending writes are dropped; the call
    itself may be rejected. *)
Definition abortTransaction : M unit := store_call CallAbortTransaction.

(** [session.endSession()] *)
Definition endSession : M unit := ret tt.

End Store.

(* ------------------------------------------------------------------ *)
(** ** [AuthRepository] *)

(** [IQueryParams]: every member may be left out. *)
Record IQueryParams : Type := mkQuery {
  page : option Z;
  limit : option Z;
  search : option string;
  sortBy : option string;
  sortOrder : option string
}.

Record Pagination : Type := mkPagination {
  p_page : Z;
  p_limit : Z;
  p_total : Z;
  p_totalPages : JsNumber
}.

Record PaginatedData : Type := mkPaginated {
  data : list Object;
  pagination : Pagination
}.

(** A destructuring default [x = d]: taken when the member is undefined. *)
Definition default {A} (d : A) (o : option A) : A :=
  match o with
  | Some a => a
  | None => d
  end.

Module AuthRepository.

(** Convert mongoose document -> domain entity *)
Definition normalize (user : Doc) : Object :=
  [ ("id", JStr (_id user));
    ("username", get_prop "username" (props user));
    ("email", get_prop "email" (props user));
    ("password", get_prop "password" (props user));
    ("role", get_prop "role" (props user));
    ("status", get_prop "status" (props user));
    ("isVerified", get_prop "isVerified" (props user));
    ("refreshToken", nullish (get_prop "refreshToken" (props user)) JNull);
    ("createdAt", get_prop "createdAt" (props user));
    ("updatedAt", get_prop "updatedAt" (props user)) ].

Definition allowedSortFields : list string :=
  ["username"; "email"; "createdAt"; "updatedAt"].

Definition dashboardPaths : list string :=
  ["username"; "email"; "role"; "status"; "isVerified"; "createdAt"; "updatedAt"].

(** The filter of [findAll] for a search text. *)
Definition searchFilter (search : string) : Filter :=
  if nonempty (trim search)
  then FOr (FRegex "username" search "i") (FRegex "email" search "i")
  else FAll.

(** The sort specification of [findAll]. *)
Definition sortSpec (sortBy sortOrder : string) : SortSpec :=
  let sortField := if includes allowedSortFields sortBy then sortBy else "createdAt" in
  mkSort sortField (if String.eqb sortOrder "asc" then 1 else -1)%Z.

(** The profile created with a credential. *)
Definition profileOf (auth : Doc) (data : Object) : Doc :=
  mkDoc (_id auth)
    [ ("fullName", get_prop "username" data);
      ("avatar", JNull);
      ("bio", JStr "");
      ("socialLinks", JObj [ ("twitter", JNull); ("linkedin", JNull);
                             ("github", JNull); ("website", JNull) ]);
      ("followers", JArr []);
      ("following", JArr []);
      ("preferences", JObj [ ("emailNotifications", JBool true);
                             ("marketingUpdates", JBool false);
                             ("twoFactorAuth", JBool false) ]) ].

(** The credential handed to [AuthUser.create]. *)
Definition credentialOf (data : Object) : Object :=
  [ ("username", get_prop "username" data);
    ("email", get_prop "email" data);
    ("password", get_prop "password" data);
    ("role", get_prop "role" data);
    ("status", get_prop "status" data);
    ("isVerified", get_prop "isVerified" data);
    ("refreshToken", nullish (get_prop "refreshToken" data) JNull) ].

Section Methods.
Variable env : Env.

(* ---------------- FIND ALL (PAGINATED) ---------------- *)
Definition findAll (params : IQueryParams) : M PaginatedData :=
  try_catch
    (let page := default 1%Z (page params) in
     let limit := default 10%Z (limit params) in
     let search := default "" (search params) in
     let sortBy := default "createdAt" (sortBy params) in
     let sortOrder := default "desc" (sortOrder params) in
     let skip := ((page - 1) * limit)%Z in
     let filter := searchFilter search in
     let sort := sortSpec sortBy sortOrder in
     r <- promise_all2
            (AuthUser_find env filter sort skip limit dashboardPaths)
            (AuthUser_countDocuments env filter) ;;
     let (users, total) := r in
     let parsedData := map normalize users in
     ret (mkPaginated parsedData
            (mkPagination page limit total (ceil_div total limit))))
    (fun error =>
       logger_error error ;;
       ret (mkPaginated []
              (mkPagination (default 1%Z (page params))
                            (default 10%Z (limit params)) 0 (Num 0)))).

Definition create (data : Object) : M (option Object) :=
  session <- startSession env ;;
  startTransaction env ;;
  try_catch
    ((* Create auth user *)
     r <- AuthUser_create env (credentialOf data) session ;;
     let (auth, session1) := r in
     (* Create user profile *)
     session2 <- User_create env (profileOf auth data) session1 ;;
     (* Commit transaction *)
     commitTransaction env session2 ;;
     endSession ;;
     ret (Some (normalize auth)))
    (fun err =>
       (* Rollback everything *)
       abortTransaction env ;;
       endSession ;;
       logger_error err ;;
       ret None).

Definition findByEmail (email : string) : M (option Object) :=
  try_catch
    (user <- AuthUser_findOne env (FEq "email" email) ;;
     ret (option_map normalize user))
    (fun err => logger_error err ;; ret None).

Definition findByUsername (username : string) : M (option Object) :=
  try_catch
    (let normalized := toLowerCase (trim username) in
     user <- AuthUser_findOne env (FEq "username" normalized) ;;
     ret (option_map normalize user))
    (fun err => logger_error err ;; ret None).

Definition findById (id : string) : M (option Object) :=
  try_catch
    (if negb (isValid env id) then ret None
     else
       user <- AuthUser_findById env id ;;
       ret (option_map normalize user))
    (fun err => logger_error err ;; ret None).

Definition removeRefreshTokenById (id : string) : M (option Object) :=
  try_catch
    (user <- AuthUser_findByIdAndUpdate env id [("refreshToken", JNull)] ;;
     ret (option_map normalize user))
    (fun err => logger_error err ;; ret None).

Definition updateById (id : string) (data : Object) : M (option Object) :=
  try_catch
    (user <- AuthUser_findByIdAndUpdate env id data ;;
     ret (option_map normalize user))
    (fun err => logger_error err ;; ret None).

Definition deleteById (id : string) : M (option Object) :=
  try_catch
    (user <- AuthUser_findByIdAndDelete env id ;;
     ret (option_map normalize user))
    (fun err => logger_error err ;; ret None).

End Methods.
End AuthRepository.

(* ------------------------------------------------------------------ *)
(** ** Request schemas (zod) *)

Module Schemas.

Definition is_alpha (c : ascii) : bool := is_upper c || is_lower c.
Definition is_alnum (c : ascii) : bool := is_alpha c || is_digit c.
Definition char_in (cs : string) (c : ascii) : bool := some_char (Ascii.eqb c) cs.

Fixpoint split_on (sep : ascii) (s : string) : list string :=
  match s with
  | EmptyString => [EmptyString]
  | String c s' =>
      if Ascii.eqb c sep then EmptyString :: split_on sep s'
      else match split_on sep s' with
           | [] => [String c EmptyString]
           | h :: t => String c h :: t
           end
  end.

Fixpoint last_char (s : string) : option ascii :=
  match s with
  | EmptyString => None
  | String c EmptyString => Some c
  | String _ s' => last_char s'
  end.

Fixpoint has_double_dot (s : string) : bool :=
  match s with
  | String "." (String "." _ as s') => true
  | String _ s' => has_double_dot s'
  | EmptyString => false
  end.

Definition starts_with_dot (s : string) : bool :=
  match s with
  | String "." _ => true
  | _ => false
  end.

Definition email_local (s : string) : bool :=
  all_chars (fun c => is_alnum c || char_in "_'+-." c) s
  && match last_char s with
     | Some c => is_alnum c || char_in "_+-" c
     | None => false
     end.

Definition email_label (s : string) : bool :=
  match s with
  | EmptyString => false
  | String c s' => is_alnum c && all_chars (fun c => is_alnum c || char_in "-" c) s'
  end.

Definition email_tld (s : string) : bool :=
  all_chars is_alpha s && Nat.leb 2 (String.length s).

Fixpoint email_domain (labels : list string) : bool :=
  match labels with
  | [] => false
  | [_] => false
  | [l; tld] => email_label l && email_tld tld
  | l :: rest => email_label l && email_domain rest
  end.

(** The pattern zod uses for [.email()]: the text does not start with a
    dot and holds no two dots in a row; before the at sign, letters,
    digits, underscore, quote, plus, minus and dot, the last of them not a
    quote or a dot; after it, one or more labels (a letter or digit, then
    letters, digits and minus), each closed by a dot, and two or more
    letters. *)
Definition zod_email (s : string) : bool :=
  negb (starts_with_dot s) && negb (has_double_dot s)
  && match split_on "@" s with
     | [l; d] => email_local l && email_domain (split_on "." d)
     | _ => false
     end.

Definition len_between (lo hi : nat) (s : string) : bool :=
  Nat.leb lo (String.length s) && Nat.leb (String.length s) hi.

(** The rule shared by every [password] member. *)
Definition password_rule (raw : string) : option string :=
  if nonempty raw
     && len_between 8 64 raw
     && some_char is_upper raw
     && some_char is_lower raw
     && some_char is_digit raw
     && some_char (char_in "@$!%*?&#") raw
  then Some raw else None.

Record RegisterUser : Type := mkRegister {
  r_username : string;
  r_email : string;
  r_password : string
}.

Section WithChecks.
(** [isEmail]: the check behind [.email()]; [UserRole], [AuthStatus]:
    the members of the two enums of models/auth.entity. *)
Variable isEmail : string -> bool.
Variables UserRole AuthStatus : list string.

(** [username] of [registerUserSchema]: nonempty, then trim, then
    toLowerCase, then min 3, max 20 and [/^[a-z0-9_]+$/] on the result. *)
Definition register_username (raw : string) : option string :=
  let v := toLowerCase (trim raw) in
  if nonempty raw
     && len_between 3 20 v
     && (nonempty v && all_chars (fun c => is_lower c || is_digit c || char_in "_" c) v)
  then Some v else None.

(** [email] of [registerUserSchema]: nonempty, then trim, then email. *)
Definition register_email (raw : string) : option string :=
  let v := trim raw in
  if nonempty raw && isEmail v then Some v else None.

(** [registerUserSchema.parse]: the parsed value, or [None] for a
    validation error. *)
Definition registerUserSchema (input : RegisterUser) : option RegisterUser :=
  match register_username (r_username input),
        register_email (r_email input),
        password_rule (r_password input) with
  | Some u, Some e, Some p => Some (mkRegister u e p)
  | _, _, _ => None
  end.

(** An [.optional()] member: undefined passes through. *)
Definition optional (rule : JsVal -> option JsVal) (v : JsVal) : option JsVal :=
  match v with
  | JUndefined => Some JUndefined
  | _ => rule v
  end.

Definition on_string (rule : string -> option string) (v : JsVal) : option JsVal :=
  match v with
  | JStr s => option_map JStr (rule s)
  | _ => None
  end.

Definition update_username (raw : string) : option string :=
  let v := trim raw in
  if len_between 3 30 v then Some v else None.

Definition update_email (raw : string) : option string :=
  let v := trim raw in
  if isEmail v then Some v else None.

Definition member_of (names : list string) (s : string) : option string :=
  if includes names s then Some s else None.

Definition is_boolean (v : JsVal) : option JsVal :=
  match v with
  | JBool _ => Some v
  | _ => None
  end.

(** The members of [updateAuthSchema], in the order of the source. *)
Definition updateAuthMembers : list (string * (JsVal -> option JsVal)) :=
  [ ("username", optional (on_string update_username));
    ("email", optional (on_string update_email));
    ("role", optional (on_string (member_of UserRole)));
    ("status", optional (on_string (member_of AuthStatus)));
    ("isVerified", optional is_boolean);
    ("password", optional (on_string password_rule)) ].

(** The object part of the schema: every member is checked on the value
    the input holds for it, and is part of the result when the input has
    the key or the checked value is defined; unknown keys are dropped. *)
Fixpoint parse_members (ms : list (string * (JsVal -> option JsVal)))
         (input : Object) : option Object :=
  match ms with
  | [] => Some []
  | (k, rule) :: ms' =>
      match rule (get_prop k input), parse_members ms' input with
      | Some v, Some out =>
          if has_key k input || negb (is_undefined v)
          then Some ((k, v) :: out) else Some out
      | _, _ => None
      end
  end.

(** The refinement: [Object.values(data).some((v) => v !== undefined && v !== null)] *)
Definition updateAuth_refine (data : Object) : bool :=
  existsb (fun kv => match snd kv with
                     | JUndefined | JNull => false
                     | _ => true
                     end) data.

(** [updateAuthSchema.parse] *)
Definition updateAuthSchema (input : Object) : option Object :=
  match parse_members updateAuthMembers input with
  | Some data => if updateAuth_refine data then Some data else None
  | None => None
  end.

(** The parsed value of [loginUserSchema] and of [resetPasswordSchema]. *)
Record Credentials : Type := mkCredentials {
  c_email : string;
  c_password : string
}.

(** [loginUserSchema.parse]: [email] is nonempty, then trimmed, then an
    email; [password] follows the shared rule. *)
Definition loginUserSchema (input : Credentials) : option Credentials :=
  match register_email (c_email input), password_rule (c_password input) with
  | Some e, Some p => Some (mkCredentials e p)
  | _, _ => None
  end.

(** [resetPasswordSchema.parse]: the same two members. *)
Definition resetPasswordSchema (input : Credentials) : option Credentials :=
  match register_email (c_email input), password_rule (c_password input) with
  | Some e, Some p => Some (mkCredentials e p)
  | _, _ => None
  end.

End WithChecks.
End Schemas.

(* ------------------------------------------------------------------ *)
(** ** Service and controller: account update *)

(** The two failures [AuthController.updateById] raises itself. *)
Definition AuthIdRequired : ApiError :=
  mkApiError "Auth ID is required" 400 BAD_REQUEST.

Definition NoFieldsProvided : ApiError :=
  mkApiError "No update data provided" 400 BAD_REQUEST.

(** Modelled from the spec: the failure of the service for an id that does
    not resolve is not part of the sources.  From the spec, the error kind
    AccountNotFound is one of the typed failures of the lifecycle, which
    the transport maps to a 404-style status. *)
Definition AccountNotFound : ApiError :=
  mkApiError "Account not found" 404 NOT_FOUND.



Record Request : Type := mkRequest {
  params_id : option string;
  body : option Object
}.

Record Response : Type := mkResponse {
  res_message : string;
  res_data : Object
}.

Module AuthService.
Section Methods.
Variable env : Env.

(** Modelled from the spec: the service method [updateAuth]
    (services/auth.service) is not part of the sources.  From the spec,
    updateAccount(id, partialFields) applies a partial field update; it
    fails with NoFieldsProvided if the update set is empty and with
    AccountNotFound if [id] does not resolve.  The update itself is the
    repository's [updateById], whose null result is an id that does not
    resolve. *)
Definition updateAuth (id : string) (updates : Object) : M Object :=
  match keys updates with
  | [] => throw (ApiExn NoFieldsProvided)
  | _ =>
      r <- AuthRepository.updateById env id updates ;;
      match r with
      | None => throw (ApiExn AccountNotFound)
      | Some account => ret account
      end
  end.
End Methods.

Section Registration.
Variable env : Env.
(** The password hasher, and the [role], [status] and [isVerified] the
    service gives a new account; neither is part of the sources. *)
Variable hash : string -> string.
Variable initial : Object.


End Registration.
End AuthService.

(** *** Requests and replies of the other handlers *)

(** The truth value of a value in a condition. *)
Definition truthy (v : JsVal) : bool :=
  match v with
  | JUndefined | JNull => false
  | JBool b => b
  | JStr s => nonempty s
  | JDate _ | JArr _ | JObj _ => true
  end.

(** [a || b] *)
Definition or_else (a b : JsVal) : JsVal := if truthy a then a else b.

(** [o?.k] on an object that may be undefined. *)
Definition optional_prop (k : string) (o : option Object) : JsVal :=
  match o with
  | Some fields => get_prop k fields
  | None => JUndefined
  end.

(** What the handlers read of a request: the route parameter [id], the
    authenticated [user], the cookies and the body. *)
Record HttpRequest : Type := mkHttp {
  http_params_id : option string;
  http_user : option Object;
  http_cookies : option Object;
  http_body : option Object
}.

(** [res.cookie(name, value, secureCookieOptions)] and
    [res.clearCookie(name, secureCookieOptions)]. *)
Inductive CookieOp : Type :=
| SetCookie (name : string) (value : JsVal)
| ClearCookie (name : string).

(** What a handler leaves on the response when it returns:
    [ApiResponse.success(res, message, data, status)] (the last two may be
    left out) and, before it, the cookie operations in their order. *)
Record Reply : Type := mkReply {
  reply_message : string;
  reply_data : JsVal;
  reply_status : option Z;
  reply_cookies : list CookieOp
}.

Module AuthController.
Section Methods.
Variable env : Env.

(** [!id] on the route parameter. *)
Definition missing (id : option string) : bool :=
  match id with
  | Some s => negb (nonempty s)
  | None => true
  end.

(** [!updates || Object.keys(updates).length === 0] *)
Definition no_updates (updates : option Object) : bool :=
  match updates with
  | Some o => Nat.eqb (List.length (keys o)) 0
  | None => true
  end.

Definition updateById (req : Request) : M Response :=
  let id := params_id req in
  let updates := body req in
  if missing id then throw (ApiExn AuthIdRequired)
  else if no_updates updates then throw (ApiExn NoFieldsProvided)
  else
    updated <- AuthService.updateAuth env (default "" id) (default [] updates) ;;
    ret (mkResponse "Account details updated successfully" updated).
End Methods.

Section Handlers.
(** The service behind the controller ([IAuthService]); its methods are
    not part of the sources and are taken as they come. *)
Variable deleteAuth : string -> M unit.
Variable loginUser : option Object -> M Object.
Variable logoutUser : JsVal -> M unit.
Variable service_refreshAccessToken : JsVal -> M Object.

Definition deleteById (req : HttpRequest) : M Reply :=
  let id := http_params_id req in
  if missing id then throw (ApiExn AuthIdRequired)
  else
    deleteAuth (default "" id) ;;
    ret (mkReply "User deleted successfully" JNull (Some 200%Z) []).

Definition getCurrentUser (req : HttpRequest) : M Reply :=
  match http_user req with
  | None => throw (ApiExn (mkApiError "User missing" 400 BAD_REQUEST))
  | Some user => ret (mkReply "Current user fetched successfully" (JObj user) None [])
  end.

Definition login (req : HttpRequest) : M Reply :=
  r <- loginUser (http_body req) ;;
  let user := get_prop "user" r in
  let accessToken := get_prop "accessToken" r in
  let refreshToken := get_prop "refreshToken" r in
  ret (mkReply "User logged in successfully"
         (JObj [("user", user); ("accessToken", accessToken);
                ("refreshToken", refreshToken)])
         None
         [SetCookie "accessToken" accessToken; SetCookie "refreshToken" refreshToken]).

Definition logout (req : HttpRequest) : M Reply :=
  let userId := optional_prop "id" (http_user req) in
  if negb (truthy userId)
  then throw (ApiExn (mkApiError "User ID missing" 400 BAD_REQUEST))
  else
    logoutUser userId ;;
    ret (mkReply "User logged out successfully" JUndefined None
           [ClearCookie "accessToken"; ClearCookie "refreshToken"]).

Definition refreshAccessToken (req : HttpRequest) : M Reply :=
  let incomingRefreshToken :=
    or_else (optional_prop "refreshToken" (http_cookies req))
            (optional_prop "refreshToken" (http_body req)) in
  r <- service_refreshAccessToken incomingRefreshToken ;;
  let accessToken := get_prop "accessToken" r in
  ret (mkReply "Access token refreshed successfully" JUndefined None
         [SetCookie "accessToken" accessToken]).

End Handlers.
End AuthController.

(* ------------------------------------------------------------------ *)
(** ** Sample worlds *)

Module Sample.

Definition hex24 (s : string) : bool :=
  Nat.eqb (String.length s) 24
  && all_chars (fun c => is_digit c || Schemas.char_in "abcdefABCDEF" c) s.

(** A store that answers every call. *)
Definition env_up : Env :=
  mkEnv (fun _ => false) "650000000000000000000003" 1000 hex24
        (fun pattern _ s => String.eqb (toLowerCase pattern) (toLowerCase s)) false.

(** A store that rejects every call. *)
Definition env_down : Env :=
  mkEnv (fun _ => true) "650000000000000000000003" 1000 hex24
        (fun pattern _ s => String.eqb (toLowerCase pattern) (toLowerCase s)) false.

(** A store where only the creation of profiles is rejected. *)
Definition env_no_profiles : Env :=
  mkEnv (fun c => match c with CallUserCreate => true | _ => false end)
        "650000000000000000000003" 1000 hex24
        (fun pattern _ s => String.eqb (toLowerCase pattern) (toLowerCase s)) false.

(** A store where only the creation of credentials is rejected. *)
Definition env_no_credentials : Env :=
  mkEnv (fun c => match c with CallAuthCreate => true | _ => false end)
        "650000000000000000000003" 1000 hex24
        (fun pattern _ s => String.eqb (toLowerCase pattern) (toLowerCase s)) false.

(** A store where only sessions cannot be started. *)
Definition env_no_sessions : Env :=
  mkEnv (fun c => match c with CallStartSession => true | _ => false end)
        "650000000000000000000003" 1000 hex24
        (fun pattern _ s => String.eqb (toLowerCase pattern) (toLowerCase s)) false.

Definition account (id username email : string) (at_ : Z) (token : JsVal) : Doc :=
  mkDoc id
    [ ("username", JStr username); ("email", JStr email);
      ("password", JStr "$2b$10$abcdefghijklmnopqrstuv");
      ("role", JStr "user"); ("status", JStr "active");
      ("isVerified", JBool false); ("refreshToken", token);
      ("createdAt", JDate at_); ("updatedAt", JDate at_) ].

Definition alice : Doc :=
  account "650000000000000000000001" "alice" "alice@x.com" 10 (JStr "refresh-1").
Definition bob : Doc :=
  account "650000000000000000000002" "bob" "Bob@x.com" 20 JNull.

Definition world : World :=
  mkWorld [alice; bob]
          [mkDoc "650000000000000000000001" [("fullName", JStr "alice")];
           mkDoc "650000000000000000000002" [("fullName", JStr "bob")]]
          [] [].

Definition empty_world : World := mkWorld [] [] [] [].

Definition entity (username email : string) : Object :=
  [ ("username", JStr username); ("email", JStr email);
    ("password", JStr "$2b$10$zyxwvutsrqponmlkjihgfe");
    ("role", JStr "user"); ("status", JStr "active");
    ("isVerified", JBool false) ].

Definition no_query : IQueryParams := mkQuery None None None None None.



End Sample.

(* ------------------------------------------------------------------ *)
(** ** Vocabulary of the properties *)

(** The relation a boolean order decides. *)
Definition holds {A} (le : A -> A -> bool) (a b : A) : Prop := le a b = true.

(** The rows of a listing ([] for a rejected promise). *)
Definition listed (r : Result PaginatedData) : list Object :=
  match r with
  | Ok p => data p
  | Throw _ => []
  end.

(** Two rows in ascending, descending order on a path. *)
Definition ascending_on (path : string) (a b : Object) : Prop :=
  bson_leb (get_prop path a) (get_prop path b) = true.

Definition descending_on (path : string) (a b : Object) : Prop :=
  bson_leb (get_prop path b) (get_prop path a) = true.

(** Two rows in the order of a sort direction: ascending for 1, descending
    for any other. *)
Definition in_order (path : string) (dir : Z) (a b : Object) : Prop :=
  if Z.eqb dir 1 then ascending_on path a b else descending_on path a b.

(** The row of the listing for a stored credential. *)
Definition dashboardRow (d : Doc) : Object :=
  AuthRepository.normalize (select AuthRepository.dashboardPaths d).

(** The credentials a query matches, in the order it asks for. *)
Definition matching (env : Env) (params : IQueryParams) (w : World) : list Doc :=
  filter (matches env (AuthRepository.searchFilter (default "" (search params))))
         (authusers w).

Definition ordered (env : Env) (params : IQueryParams) (w : World) : list Doc :=
  sort_by (sort_leb (AuthRepository.sortSpec (default "createdAt" (sortBy params))
                                             (default "desc" (sortOrder params))))
          (matching env params w).

(** The operations of the repository, and what each answers. *)
Inductive Operation : Type :=
| OpFindAll (params : IQueryParams)
| OpCreate (data : Object)
| OpFindByEmail (email : string)
| OpFindByUsername (username : string)
| OpFindById (id : string)
| OpRemoveRefreshTokenById (id : string)
| OpUpdateById (id : string) (data : Object)
| OpDeleteById (id : string).

Inductive Answer : Type :=
| Page (p : PaginatedData)
| Entity (e : option Object).

Definition answering {A} (f : A -> Answer) (m : M A) : M Answer :=
  fun w =>
    match m w with
    | (Ok a, w') => (Ok (f a), w')
    | (Throw e, w') => (Throw e, w')
    end.

Definition perform (env : Env) (op : Operation) : M Answer :=
  match op with
  | OpFindAll params => answering Page (AuthRepository.findAll env params)
  | OpCreate data => answering Entity (AuthRepository.create env data)
  | OpFindByEmail email => answering Entity (AuthRepository.findByEmail env email)
  | OpFindByUsername username => answering Entity (AuthRepository.findByUsername env username)
  | OpFindById id => answering Entity (AuthRepository.findById env id)
  | OpRemoveRefreshTokenById id => answering Entity (AuthRepository.removeRefreshTokenById env id)
  | OpUpdateById id data => answering Entity (AuthRepository.updateById env id data)
  | OpDeleteById id => answering Entity (AuthRepository.deleteById env id)
  end.

Definition rejected {A} (r : Result A * World) : bool :=
  match fst r with
  | Throw _ => true
  | Ok _ => false
  end.

(** The session of [create] is there and its transaction has started. *)
Definition transaction_started (env : Env) : bool :=
  negb (down env CallStartSession) && negb (down env CallStartTransaction).

(** The store fails an operation when a call the operation makes on a
    model is rejected ([create] makes its calls once its transaction has
    started). *)
Definition store_fails (env : Env) (op : Operation) (w : World) : bool :=
  match op with
  | OpFindAll params =>
      let p := default 1%Z (page params) in
      let l := default 10%Z (limit params) in
      let f := AuthRepository.searchFilter (default "" (search params)) in
      let s := AuthRepository.sortSpec (default "createdAt" (sortBy params))
                                       (default "desc" (sortOrder params)) in
      rejected (AuthUser_find env f s ((p - 1) * l) l AuthRepository.dashboardPaths w)
      || rejected (AuthUser_countDocuments env f w)
  | OpCreate data =>
      negb (rejected ((startSession env ;; startTransaction env)%async w))
      && match AuthUser_create env (AuthRepository.credentialOf data)
                               (mkSession [] []) w with
         | (Throw _, _) => true
         | (Ok (auth, s), w1) =>
             rejected (User_create env (AuthRepository.profileOf auth data) s w1)
         end
  | OpFindByEmail email => rejected (AuthUser_findOne env (FEq "email" email) w)
  | OpFindByUsername username =>
      rejected (AuthUser_findOne env (FEq "username" (toLowerCase (trim username))) w)
  | OpFindById id => isValid env id && rejected (AuthUser_findById env id w)
  | OpRemoveRefreshTokenById id =>
      rejected (AuthUser_findByIdAndUpdate env id [("refreshToken", JNull)] w)
  | OpUpdateById id data => rejected (AuthUser_findByIdAndUpdate env id data w)
  | OpDeleteById id => rejected (AuthUser_findByIdAndDelete env id w)
  end.

(** What an operation answers when the store fails it. *)
Definition silent_answer (op : Operation) : Answer :=
  match op with
  | OpFindAll params =>
      Page (mkPaginated []
              (mkPagination (default 1%Z (page params)) (default 10%Z (limit params))
                            0 (Num 0)))
  | _ => Entity None
  end.

(** The rollback of the operation is rejected: only [create] has one. *)
Definition rollback_rejected (env : Env) (op : Operation) : bool :=
  match op with
  | OpCreate _ => down env CallAbortTransaction
  | _ => false
  end.

(** The no-ties condition: no two matching credentials have equal sort
    keys under the sort specification of the query. *)
Definition no_ties (env : Env) (params : IQueryParams) (w : World) : Prop :=
  forall a b,
    In a (matching env params w) -> In b (matching env params w) ->
    sort_leb (AuthRepository.sortSpec (default "createdAt" (sortBy params))
                                      (default "desc" (sortOrder params))) a b = true ->
    sort_leb (AuthRepository.sortSpec (default "createdAt" (sortBy params))
                                      (default "desc" (sortOrder params))) b a = true ->
    a = b.

(** An object holds exactly the fields of a list. *)
Definition has_exactly (fields : list string) (o : Object) : Prop :=
  forall k, In k (keys o) <-> In k fields.

(** The fields of the account view of the spec. *)
Definition accountViewFields : list string :=
  ["id"; "username"; "email"; "role"; "status"; "isVerified"; "createdAt"; "updatedAt"].

(** The members of the object [normalize] builds. *)
Definition entityFields : list string :=
  ["id"; "username"; "email"; "password"; "role"; "status"; "isVerified";
   "refreshToken"; "createdAt"; "updatedAt"].

(** A string that does not start with whitespace. *)
Definition starts_plain (s : string) : Prop :=
  match s with
  | EmptyString => True
  | String c _ => is_space c = false
  end.

(** A character of [/^[a-z0-9_]+$/]. *)
Definition name_char (c : ascii) : bool :=
  is_lower c || is_digit c || Schemas.char_in "_" c.

(** The members an account update can carry. *)
Definition updateFields : list string :=
  ["username"; "email"; "role"; "status"; "isVerified"; "password"].

(** A string in trimmed, lowercase form. *)
Definition trimmed (s : string) : Prop := trim s = s.
Definition lowercase (s : string) : Prop := toLowerCase s = s.

(** The credential the store makes of the entity given to [create]. *)
Definition createdCredential (env : Env) (data : Object) : Doc :=
  mkDoc (newObjectId env)
        (defined_members (AuthRepository.credentialOf data)
         ++ [("createdAt", JDate (now env)); ("updatedAt", JDate (now env))]).

(** The profile stored with it. *)
Definition createdProfile (env : Env) (data : Object) : Doc :=
  mkDoc (_id (createdCredential env data))
        (defined_members
           (props (AuthRepository.profileOf (createdCredential env data) data))).

(** Both collections with the new credential and its profile added. *)
Definition both_created (env : Env) (data : Object) (w : World)
  : list Doc * list Doc :=
  (authusers w ++ [createdCredential env data],
   users w ++ [createdProfile env data]).

(** The store accepts both writes of [create]: neither call is rejected,
    the credential collides with no stored one, and no profile has its
    id. *)
Definition writes_accepted (env : Env) (data : Object) (w : World) : bool :=
  negb (down env CallAuthCreate)
  && match auth_conflict (createdCredential env data) (authusers w) with
     | None => true
     | Some _ => false
     end
  && negb (down env CallUserCreate)
  && negb (existsb (has_id (newObjectId env)) (users w)).

(** What [create] answers when it has caught a failure: null, unless the
    rollback is itself rejected, which it does not catch. *)
Definition after_rollback (env : Env) : Result (option Object) :=
  if down env CallAbortTransaction then Throw (StoreExn StoreUnavailable)
  else Ok None.


(** A string that [toLowerCase (trim _)] leaves as it is. *)
Definition normalized (s : string) : Prop := toLowerCase (trim s) = s.

(** No two credentials under one [_id]. *)
Definition unique_ids (w : World) : Prop := NoDup (map _id (authusers w)).

(** The operations that only read. *)
Definition is_query (op : Operation) : bool :=
  match op with
  | OpFindAll _ | OpFindByEmail _ | OpFindByUsername _ | OpFindById _ => true
  | _ => false
  end.

(** The lookups of one credential. *)
Definition is_lookup (op : Operation) : bool :=
  match op with
  | OpFindByEmail _ | OpFindByUsername _ | OpFindById _ => true
  | _ => false
  end.

(** A query for another page, for another search text. *)
Definition page_of (params : IQueryParams) (p : Z) : IQueryParams :=
  mkQuery (Some p) (limit params) (search params) (sortBy params) (sortOrder params).

Definition with_search (params : IQueryParams) (s : option string) : IQueryParams :=
  mkQuery (page params) (limit params) s (sortBy params) (sortOrder params).

(** The rows of page [p] of a listing. *)
Definition page_rows (env : Env) (params : IQueryParams) (w : World) (p : Z)
  : list Object :=
  listed (fst (AuthRepository.findAll env (page_of params p) w)).

(* ------------------------------------------------------------------ *)
(** ** Properties *)

Arguments AuthRepository.credentialOf : simpl never.
Arguments AuthRepository.profileOf : simpl never.
Arguments AuthRepository.normalize : simpl never.
Arguments defined_members : simpl never.

(** *** Atomic creation of a credential and its profile *)

Lemma profileOf_id (auth : Doc) (data : Object) :
  _id (AuthRepository.profileOf auth data) = _id auth.
Proof. reflexivity. Qed.

Ltac run_create :=
  unfold AuthRepository.create, startSession, startTransaction, try_catch, bind,
    AuthUser_create, User_create, commitTransaction, abortTransaction, endSession,
    logger_error, store_call, read_authusers, read_users, throw, ret, stores,
    after_rollback, both_created, createdProfile, createdCredential.

Ltac started H :=
  unfold transaction_started in H;
  apply andb_true_iff in H;
  let Ht := fresh "Ht" in
  destruct H as [H Ht]; apply negb_true_iff in H, Ht;
  run_create; rewrite H; cbn; rewrite Ht; cbn.

(** [create] without a transaction: the rejection of [startSession] or of
    [startTransaction] is the rejection of [create]; nothing is written or
    logged. *)
Lemma create_no_session (env : Env) (data : Object) (w : World) :
  transaction_started env = false ->
  fst (AuthRepository.create env data w) = Throw (StoreExn StoreUnavailable)
  /\ stores (snd (AuthRepository.create env data w)) = stores w
  /\ logged (snd (AuthRepository.create env data w)) = logged w.
Proof.
  unfold transaction_started. intros Hs. run_create.
  destruct (down env CallStartSession); cbn; [auto |].
  destruct (down env CallStartTransaction); cbn; [auto | discriminate].
Qed.

(** [create] with a write refused: the transaction is rolled back. *)
Lemma create_refused (env : Env) (data : Object) (w : World) :
  transaction_started env = true ->
  writes_accepted env data w = false ->
  fst (AuthRepository.create env data w) = after_rollback env
  /\ stores (snd (AuthRepository.create env data w)) = stores w
  /\ (down env CallAbortTransaction = true ->
      logged (snd (AuthRepository.create env data w)) = logged w)
  /\ (down env CallAbortTransaction = false ->
      exists e, logged (snd (AuthRepository.create env data w)) = logged w ++ [e]).
Proof.
  intros Hs Hw. unfold writes_accepted, createdCredential in Hw. started Hs.
  destruct (down env CallAuthCreate); cbn.
  { destruct (down env CallAbortTransaction); cbn; repeat split; eauto; discriminate. }
  rewrite !app_nil_r.
  destruct (auth_conflict _ (authusers w)); cbn.
  { destruct (down env CallAbortTransaction); cbn; repeat split; eauto; discriminate. }
  destruct (down env CallUserCreate); cbn.
  { destruct (down env CallAbortTransaction); cbn; repeat split; eauto; discriminate. }
  rewrite !app_nil_r. cbn in Hw.
  destruct (existsb (has_id (newObjectId env)) (users w)) eqn:Hp; [| discriminate].
  rewrite profileOf_id. cbn [_id]. rewrite Hp. cbn.
  destruct (down env CallAbortTransaction); cbn; repeat split; eauto; discriminate.
Qed.

(** [create] with both writes accepted: what the commit makes of them. *)
Lemma create_accepted (env : Env) (data : Object) (w : World) :
  transaction_started env = true ->
  writes_accepted env data w = true ->
  (down env CallCommitTransaction = false ->
   fst (AuthRepository.create env data w)
   = Ok (Some (AuthRepository.normalize (createdCredential env data)))
   /\ stores (snd (AuthRepository.create env data w)) = both_created env data w
   /\ logged (snd (AuthRepository.create env data w)) = logged w)
  /\ (down env CallCommitTransaction = true ->
      fst (AuthRepository.create env data w) = after_rollback env
      /\ stores (snd (AuthRepository.create env data w))
         = if rejected_commit_applied env then both_created env data w else stores w).
Proof.
  intros Hs Hw. unfold writes_accepted, createdCredential in Hw.
  apply andb_true_iff in Hw. destruct Hw as [Hw Hp].
  apply andb_true_iff in Hw. destruct Hw as [Hw Hu].
  apply andb_true_iff in Hw. destruct Hw as [Ha Hc].
  apply negb_true_iff in Ha, Hu, Hp.
  started Hs. rewrite Ha. cbn. rewrite !app_nil_r.
  destruct (auth_conflict _ (authusers w)); [discriminate |]. cbn.
  rewrite Hu. cbn. rewrite !app_nil_r, profileOf_id. cbn [_id]. rewrite Hp. cbn.
  split; intros Hd; rewrite Hd; cbn.
  - auto.
  - destruct (rejected_commit_applied env), (down env CallAbortTransaction); cbn; auto.
Qed.

(** [create] whose commit is rejected catches the rejection and logs it. *)
Lemma create_commit_rejected (env : Env) (data : Object) (w : World) :
  transaction_started env = true ->
  writes_accepted env data w = true ->
  down env CallCommitTransaction = true ->
  (down env CallAbortTransaction = false ->
   fst (AuthRepository.create env data w) = Ok None
   /\ exists e, logged (snd (AuthRepository.create env data w)) = logged w ++ [e])
  /\ (down env CallAbortTransaction = true ->
      fst (AuthRepository.create env data w) = Throw (StoreExn StoreUnavailable)
      /\ logged (snd (AuthRepository.create env data w)) = logged w).
Proof.
  intros Hs Hw Hd. unfold writes_accepted, createdCredential in Hw.
  apply andb_true_iff in Hw. destruct Hw as [Hw Hp].
  apply andb_true_iff in Hw. destruct Hw as [Hw Hu].
  apply andb_true_iff in Hw. destruct Hw as [Ha Hc].
  apply negb_true_iff in Ha, Hu, Hp.
  started Hs. rewrite Ha. cbn. rewrite !app_nil_r.
  destruct (auth_conflict _ (authusers w)); [discriminate |]. cbn.
  rewrite Hu. cbn. rewrite !app_nil_r, profileOf_id. cbn [_id]. rewrite Hp. cbn.
  rewrite Hd. cbn.
  destruct (rejected_commit_applied env), (down env CallAbortTransaction); cbn;
    split; intros [=]; eauto.
Qed.

(** [create] answers an entity only when both records were created. *)
Lemma create_success (env : Env) (data : Object) (w : World) (e : Object) :
  fst (AuthRepository.create env data w) = Ok (Some e) ->
  e = AuthRepository.normalize (createdCredential env data)
  /\ stores (snd (AuthRepository.create env data w)) = both_created env data w
  /\ auth_conflict (createdCredential env data) (authusers w) = None.
Proof.
  intros He.
  destruct (transaction_started env) eqn:Hs.
  2: { destruct (create_no_session env data w Hs) as (Hr & _). congruence. }
  destruct (writes_accepted env data w) eqn:Hw.
  - destruct (create_accepted env data w Hs Hw) as [Hok Hko].
    destruct (down env CallCommitTransaction) eqn:Hc.
    + destruct (Hko eq_refl) as [Hr _]. rewrite Hr in He.
      unfold after_rollback in He. destruct (down env CallAbortTransaction); discriminate.
    + destruct (Hok eq_refl) as (Hr & Hst & _). rewrite Hr in He.
      injection He as <-. split; [reflexivity |]. split; [exact Hst |].
      unfold writes_accepted in Hw.
      destruct (auth_conflict _ (authusers w)); [| reflexivity].
      rewrite andb_false_r in Hw. discriminate.
  - destruct (create_refused env data w Hs Hw) as (Hr & _). rewrite Hr in He.
    unfold after_rollback in He. destruct (down env CallAbortTransaction); discriminate.
Qed.


(** C1. Creating an account is all-or-nothing.  Whatever the input, the
    state of the store and the calls it rejects, after [create] the two
    collections are either as they were, or hold one more credential and
    one more profile, both under the same id.  Both are created exactly
    when the transaction starts, the store accepts both writes, and the commit
    goes through (or is rejected after it was applied): [create] then
    answers the created credential, and answers an entity in no other
    case.  When a write is refused, also when the profile is refused after
    the credential was accepted, the pending writes are dropped and both
    collections are as they were; [create] answers null, unless the
    rollback, the start of the session or the start of the transaction
    is itself rejected, which [create] does not catch. *)
Theorem create_all_or_nothing (env : Env) (data : Object) (w : World) :
  let out := AuthRepository.create env data w in
  (stores (snd out) = stores w \/ stores (snd out) = both_created env data w)
  /\ _id (createdProfile env data) = _id (createdCredential env data)
  /\ (transaction_started env = false ->
      fst out = Throw (StoreExn StoreUnavailable) /\ stores (snd out) = stores w)
  /\ (transaction_started env = true -> writes_accepted env data w = false ->
      fst out = after_rollback env /\ stores (snd out) = stores w)
  /\ (transaction_started env = true -> writes_accepted env data w = true ->
      down env CallCommitTransaction = false ->
      fst out = Ok (Some (AuthRepository.normalize (createdCredential env data)))
      /\ stores (snd out) = both_created env data w)
  /\ (transaction_started env = true -> writes_accepted env data w = true ->
      down env CallCommitTransaction = true ->
      fst out = after_rollback env
      /\ stores (snd out)
         = if rejected_commit_applied env then both_created env data w else stores w)
  /\ (forall e, fst out = Ok (Some e) ->
                e = AuthRepository.normalize (createdCredential env data)
                /\ stores (snd out) = both_created env data w).
Proof.
  cbn zeta.
  destruct (transaction_started env) eqn:Hs.
  2: { destruct (create_no_session env data w Hs) as (Hr & Hst & _).
       split; [now left |]. split; [reflexivity |].
       split; [auto |]. split; [discriminate |]. split; [discriminate |].
       split; [discriminate |]. intros e He. rewrite Hr in He. discriminate. }
  - destruct (writes_accepted env data w) eqn:Hw.
    + destruct (create_accepted env data w Hs Hw) as [Hok Hko].
      destruct (down env CallCommitTransaction) eqn:Hc.
      * destruct (Hko eq_refl) as [Hr Hst].
        split; [rewrite Hst; destruct (rejected_commit_applied env); auto |].
        split; [reflexivity |].
        split; [discriminate |]. split; [discriminate |]. split; [discriminate |].
        split; [auto |]. intros e He. rewrite Hr in He. unfold after_rollback in He.
        destruct (down env CallAbortTransaction); discriminate.
      * destruct (Hok eq_refl) as (Hr & Hst & _).
        split; [now right |]. split; [reflexivity |].
        split; [discriminate |]. split; [discriminate |]. split; [auto |].
        split; [discriminate |]. intros e He. rewrite Hr in He.
        injection He as <-. auto.
    + destruct (create_refused env data w Hs Hw) as (Hr & Hst & _).
      split; [now left |]. split; [reflexivity |].
      split; [discriminate |]. split; [auto |]. split; [discriminate |].
      split; [discriminate |]. intros e He. rewrite Hr in He.
      unfold after_rollback in He. destruct (down env CallAbortTransaction); discriminate.
Qed.

Lemma create_all_or_nothing_witness :
  fst (AuthRepository.create Sample.env_no_profiles
         (Sample.entity "carol" "carol@x.com") Sample.world) = Ok None
  /\ stores (snd (AuthRepository.create Sample.env_no_profiles
                    (Sample.entity "carol" "carol@x.com") Sample.world))
     = stores Sample.world.
Proof.
  pose proof (create_all_or_nothing Sample.env_no_profiles
                (Sample.entity "carol" "carol@x.com") Sample.world)
    as (_ & _ & _ & H & _).
  apply H; reflexivity.
Defined.

(** *** Lookup by id *)

(** C8. [findById] answers null for an id that is not a well-formed object
    id, without raising and without a call on the store (the world,
    trace of calls included, is the one it was given); and it answers,
    never raises, on every string. *)
Theorem findById_malformed_id (env : Env) (id : string) (w : World) :
  (exists r w', AuthRepository.findById env id w = (Ok r, w'))
  /\ (isValid env id = false -> AuthRepository.findById env id w = (Ok None, w)).
Proof.
  unfold AuthRepository.findById, try_catch, bind, AuthUser_findById, cast_id,
    store_call, read_authusers, ret, throw, logger_error.
  destruct (isValid env id) eqn:Hv; cbn.
  - split; [| discriminate].
    destruct (down env CallFindById); cbn; eauto.
  - split; eauto.
Qed.

Lemma findById_malformed_id_witness :
  AuthRepository.findById Sample.env_down "not-an-object-id" Sample.world
  = (Ok None, Sample.world).
Proof.
  apply (proj2 (findById_malformed_id Sample.env_down "not-an-object-id" Sample.world)).
  reflexivity.
Defined.

(** *** Clearing the refresh token *)

Lemma set_prop_idem (k : string) (v : JsVal) (o : Object) :
  set_prop k v (set_prop k v o) = set_prop k v o.
Proof.
  induction o as [| [k' v'] o IH]; cbn.
  - now rewrite String.eqb_refl.
  - destruct (String.eqb k k') eqn:E; cbn.
    + now rewrite String.eqb_refl.
    + now rewrite E, IH.
Qed.

Lemma set_prop_null_same (k : string) (o : Object) :
  get_prop k o = JNull -> set_prop k JNull o = o.
Proof.
  induction o as [| [k' v'] o IH]; cbn; [discriminate |].
  destruct (String.eqb k k') eqn:E.
  - apply String.eqb_eq in E. now intros ->; subst.
  - intros H. now rewrite IH.
Qed.

Lemma lower_char_idem (c : ascii) : lower_char (lower_char c) = lower_char c.
Proof.
  destruct c as [[] [] [] [] [] [] [] []]; reflexivity.
Qed.

Lemma toLowerCase_idem (s : string) : toLowerCase (toLowerCase s) = toLowerCase s.
Proof.
  induction s as [| c s IH]; cbn; [reflexivity |].
  now rewrite lower_char_idem, IH.
Qed.

Lemma canonical_idem (id : string) : canonical (canonical id) = canonical id.
Proof. apply toLowerCase_idem. Qed.

(** The cast of an id changes nothing for the documents it denotes. *)
Lemma has_id_canonical (id : string) (d : Doc) :
  has_id (canonical id) d = has_id id d.
Proof. unfold has_id. now rewrite canonical_idem. Qed.

Lemma find_canonical (id : string) (l : list Doc) :
  find (has_id (canonical id)) l = find (has_id id) l.
Proof.
  induction l as [| x l IH]; cbn; [reflexivity |].
  now rewrite has_id_canonical, IH.
Qed.

Lemma replace_doc_canonical (id : string) (d' : Doc) (l : list Doc) :
  replace_doc (canonical id) d' l = replace_doc id d' l.
Proof.
  induction l as [| x l IH]; cbn; [reflexivity |].
  now rewrite has_id_canonical, IH.
Qed.

Lemma remove_doc_canonical (id : string) (l : list Doc) :
  remove_doc (canonical id) l = remove_doc id l.
Proof.
  induction l as [| x l IH]; cbn; [reflexivity |].
  now rewrite has_id_canonical, IH.
Qed.

Lemma find_has_id (id : string) (l : list Doc) (d : Doc) :
  find (has_id id) l = Some d -> has_id id d = true.
Proof.
  intros H. now apply find_some in H.
Qed.

Lemma replace_doc_self (id : string) (l : list Doc) (d : Doc) :
  find (has_id id) l = Some d -> replace_doc id d l = l.
Proof.
  induction l as [| x l IH]; cbn; [discriminate |].
  destruct (has_id id x).
  - now intros [= ->].
  - intros H. now rewrite IH.
Qed.

Lemma find_replace_doc (id : string) (l : list Doc) (d d' : Doc) :
  find (has_id id) l = Some d -> has_id id d' = true ->
  find (has_id id) (replace_doc id d' l) = Some d'.
Proof.
  intros H Hid. induction l as [| x l IH]; cbn in *; [discriminate |].
  destruct (has_id id x) eqn:E; cbn.
  - now rewrite Hid.
  - rewrite E. auto.
Qed.

Lemma find_replace_doc_none (id : string) (l : list Doc) (d' : Doc) :
  find (has_id id) l = None -> replace_doc id d' l = l.
Proof.
  induction l as [| x l IH]; cbn; [reflexivity |].
  destruct (has_id id x); [discriminate |].
  intros H. now rewrite IH.
Qed.

Lemma replace_doc_twice (id : string) (l : list Doc) (d d' : Doc) :
  replace_doc id d' (replace_doc id d l) = replace_doc id d' l \/ has_id id d = false.
Proof.
  destruct (has_id id d) eqn:Hd.
  - left. induction l as [| x l IH]; cbn; [reflexivity |].
    destruct (has_id id x) eqn:E; cbn.
    + now rewrite Hd.
    + now rewrite E, IH.
  - now right.
Qed.

(** What [updateById] leaves in the collections: the addressed credential
    with the update applied, when the id is well formed, the store answers
    and the credential exists; nothing new otherwise. *)
Lemma updateById_stores (env : Env) (id : string) (u : Object) (w : World) :
  stores (snd (AuthRepository.updateById env id u w)) =
  if isValid env id && negb (down env CallFindByIdAndUpdate)
  then match find (has_id id) (authusers w) with
       | Some d => (replace_doc id (mkDoc (_id d) (apply_update u (props d))) (authusers w),
                    users w)
       | None => stores w
       end
  else stores w.
Proof.
  unfold AuthRepository.updateById, try_catch, bind, AuthUser_findByIdAndUpdate,
    cast_id, store_call, read_authusers, write_authusers, ret, throw,
    logger_error, stores.
  destruct (isValid env id); cbn; [| reflexivity].
  destruct (down env CallFindByIdAndUpdate); cbn; [reflexivity |].
  rewrite find_canonical.
  destruct (find (has_id id) (authusers w)); cbn;
    [now rewrite replace_doc_canonical | reflexivity].
Qed.

Lemma updateById_answers (env : Env) (id : string) (u : Object) (w : World) :
  exists r w', AuthRepository.updateById env id u w = (Ok r, w').
Proof.
  unfold AuthRepository.updateById, try_catch, bind, AuthUser_findByIdAndUpdate,
    cast_id, store_call, read_authusers, write_authusers, ret, throw,
    logger_error.
  destruct (isValid env id); cbn; eauto.
  destruct (down env CallFindByIdAndUpdate); cbn; eauto.
  destruct (find (has_id (canonical id)) (authusers w)); cbn; eauto.
Qed.

Lemma removeRefreshTokenById_is_update (env : Env) (id : string) :
  AuthRepository.removeRefreshTokenById env id
  = AuthRepository.updateById env id [("refreshToken", JNull)].
Proof. reflexivity. Qed.

(** C4. Logout is idempotent.  Clearing the refresh token never raises; on
    an existing account whose stored refresh token is already null it
    answers the account and leaves both collections as they were; and for
    every id and every state, clearing twice leaves the collections as
    clearing once does. *)
Theorem removeRefreshToken_idempotent (env : Env) (id : string) (w : World) :
  let clear := AuthRepository.removeRefreshTokenById env id in
  (exists r w', clear w = (Ok r, w'))
  /\ stores (snd (clear (snd (clear w)))) = stores (snd (clear w))
  /\ (forall d,
        isValid env id = true -> down env CallFindByIdAndUpdate = false ->
        find (has_id id) (authusers w) = Some d ->
        get_prop "refreshToken" (props d) = JNull ->
        fst (clear w) = Ok (Some (AuthRepository.normalize d))
        /\ stores (snd (clear w)) = stores w).
Proof.
  cbn zeta. rewrite removeRefreshTokenById_is_update.
  split; [apply updateById_answers |]. split.
  - rewrite (updateById_stores env id _ (snd _)).
    pose proof (updateById_stores env id [("refreshToken", JNull)] w) as H1.
    destruct (isValid env id && negb (down env CallFindByIdAndUpdate)); [| reflexivity].
    destruct (find (has_id id) (authusers w)) as [d |] eqn:Hf.
    + unfold stores in H1. injection H1 as Ha Hu. rewrite Ha, Hu.
      pose proof (find_has_id _ _ Hf) as Hid.
      cbn [apply_update fold_left fst snd].
      erewrite find_replace_doc; [| exact Hf | exact Hid].
      cbn [_id props].
      rewrite set_prop_idem.
      destruct (replace_doc_twice id (authusers w)
                  (mkDoc (_id d) (set_prop "refreshToken" JNull (props d)))
                  (mkDoc (_id d) (set_prop "refreshToken" JNull (props d)))) as [E | E].
      * rewrite E. unfold stores. now rewrite Ha, Hu.
      * unfold has_id in E, Hid. cbn [_id] in E. congruence.
    + unfold stores in H1. injection H1 as Ha Hu. rewrite Ha, Hu, Hf.
      unfold stores. now rewrite Ha, Hu.
  - intros d Hv Hd Hf Hn.
    pose proof (updateById_stores env id [("refreshToken", JNull)] w) as H1.
    rewrite Hv, Hd, Hf in H1. cbn [andb negb] in H1.
    cbn [apply_update fold_left fst snd] in H1.
    rewrite (set_prop_null_same _ _ Hn) in H1.
    assert (Hd' : mkDoc (_id d) (props d) = d) by now destruct d.
    rewrite Hd', (replace_doc_self _ _ Hf) in H1.
    split; [| exact H1].
    unfold AuthRepository.updateById, try_catch, bind, AuthUser_findByIdAndUpdate,
      cast_id, store_call, read_authusers, write_authusers, ret, throw.
    rewrite Hv. cbn. rewrite Hd. cbn. rewrite find_canonical, Hf. cbn.
    now rewrite (set_prop_null_same _ _ Hn), Hd'.
Qed.

Lemma removeRefreshToken_idempotent_witness :
  fst (AuthRepository.removeRefreshTokenById Sample.env_up
         "650000000000000000000002" Sample.world)
  = Ok (Some (AuthRepository.normalize Sample.bob))
  /\ stores (snd (AuthRepository.removeRefreshTokenById Sample.env_up
                    "650000000000000000000002" Sample.world))
     = stores Sample.world.
Proof.
  apply (proj2 (proj2 (removeRefreshToken_idempotent Sample.env_up
                         "650000000000000000000002" Sample.world)));
    reflexivity.
Defined.

(** *** Lookup by username and by email *)

Lemma findOne_answer (env : Env) (f : Filter) (w : World) :
  down env CallFindOne = false ->
  fst (AuthUser_findOne env f w) = Ok (find (matches env f) (authusers w)).
Proof.
  intros H. unfold AuthUser_findOne, bind, store_call, read_authusers, ret.
  now rewrite H.
Qed.

Lemma findByUsername_answer (env : Env) (u : string) (w : World) :
  down env CallFindOne = false ->
  fst (AuthRepository.findByUsername env u w)
  = Ok (option_map AuthRepository.normalize
          (find (matches env (FEq "username" (toLowerCase (trim u)))) (authusers w))).
Proof.
  intros H.
  unfold AuthRepository.findByUsername, try_catch, bind, AuthUser_findOne,
    store_call, read_authusers, ret.
  now rewrite H.
Qed.

Lemma findByEmail_answer (env : Env) (e : string) (w : World) :
  down env CallFindOne = false ->
  fst (AuthRepository.findByEmail env e w)
  = Ok (option_map AuthRepository.normalize
          (find (matches env (FEq "email" e)) (authusers w))).
Proof.
  intros H.
  unfold AuthRepository.findByEmail, try_catch, bind, AuthUser_findOne,
    store_call, read_authusers, ret.
  now rewrite H.
Qed.

Lemma matches_FEq (env : Env) (path value : string) (d : Doc) :
  matches env (FEq path value) d = true <-> get_prop path (props d) = JStr value.
Proof.
  cbn. destruct (get_prop path (props d)); try (split; discriminate).
  rewrite String.eqb_eq. split; [now intros -> | now intros [= ->]].
Qed.

(** C9. Lookup normalization is asymmetric.  While the store answers,
    [findByUsername] looks for the trimmed, lowercased username: its answer
    depends on the input only through that form, and a credential stored
    under that form is found whatever the case and the surrounding
    whitespace of the input.  [findByEmail] looks for the email exactly as
    given: when no stored email is that very string it answers null, also
    when a stored email differs from it only in case or whitespace. *)
Theorem lookup_normalization_asymmetric (env : Env) (w : World) :
  down env CallFindOne = false ->
  (forall u u',
      toLowerCase (trim u) = toLowerCase (trim u') ->
      fst (AuthRepository.findByUsername env u w)
      = fst (AuthRepository.findByUsername env u' w))
  /\ (forall u d,
        In d (authusers w) ->
        get_prop "username" (props d) = JStr (toLowerCase (trim u)) ->
        exists d',
          fst (AuthRepository.findByUsername env u w)
          = Ok (Some (AuthRepository.normalize d'))
          /\ get_prop "username" (props d') = JStr (toLowerCase (trim u)))
  /\ (forall e,
        fst (AuthRepository.findByEmail env e w)
        = Ok (option_map AuthRepository.normalize
                (find (matches env (FEq "email" e)) (authusers w))))
  /\ (forall e,
        (forall d, In d (authusers w) -> get_prop "email" (props d) <> JStr e) ->
        fst (AuthRepository.findByEmail env e w) = Ok None).
Proof.
  intros Hup. repeat split.
  - intros u u' E. now rewrite !findByUsername_answer, E.
  - intros u d Hin Hd. rewrite findByUsername_answer by assumption.
    destruct (find _ (authusers w)) as [d' |] eqn:Hf.
    + exists d'. split; [reflexivity |].
      apply find_some in Hf. now apply (matches_FEq env).
    + apply (find_none _ _ Hf) in Hin.
      apply (matches_FEq env) in Hd. congruence.
  - intros e. now apply findByEmail_answer.
  - intros e Hno. rewrite findByEmail_answer by assumption.
    destruct (find _ (authusers w)) as [d' |] eqn:Hf; [| reflexivity].
    apply find_some in Hf. destruct Hf as [Hin Hm].
    apply (matches_FEq env) in Hm. now apply Hno in Hin.
Qed.

Lemma lookup_normalization_asymmetric_witness :
  (exists d',
      fst (AuthRepository.findByUsername Sample.env_up "  BOB " Sample.world)
      = Ok (Some (AuthRepository.normalize d'))
      /\ get_prop "username" (props d') = JStr "bob")
  /\ toLowerCase (trim " bob@X.com ") = toLowerCase (trim "Bob@x.com")
  /\ fst (AuthRepository.findByEmail Sample.env_up " bob@X.com " Sample.world) = Ok None.
Proof.
  pose proof (lookup_normalization_asymmetric Sample.env_up Sample.world eq_refl)
    as (_ & Hname & _ & Hmail).
  split; [| split; [reflexivity |]].
  - apply (Hname "  BOB " Sample.bob); [right; left; reflexivity | reflexivity].
  - apply Hmail. intros d [<- | [<- | []]]; discriminate.
Defined.

(** *** Sorting *)

Section SortingFacts.
Variable A : Type.
Variable le : A -> A -> bool.
Hypothesis le_total : forall a b, le a b = false -> le b a = true.

Lemma insert_sorted_HdRel (x a : A) (l : list A) :
  HdRel (holds le) a l -> holds le a x -> HdRel (holds le) a (insert_sorted le x l).
Proof.
  intros Hl Hx. destruct l as [| y l]; cbn.
  - now constructor.
  - destruct (le x y); constructor; [assumption | now inversion Hl].
Qed.

Lemma insert_sorted_Sorted (x : A) (l : list A) :
  Sorted (holds le) l -> Sorted (holds le) (insert_sorted le x l).
Proof.
  induction 1 as [| a l Hs IH Hd]; cbn.
  - repeat constructor.
  - destruct (le x a) eqn:E.
    + constructor; [now constructor | now constructor].
    + constructor; [assumption |].
      apply insert_sorted_HdRel; [assumption | now apply le_total].
Qed.

Lemma sort_by_Sorted (l : list A) : Sorted (holds le) (sort_by le l).
Proof.
  induction l as [| x l IH]; cbn; [constructor | now apply insert_sorted_Sorted].
Qed.
End SortingFacts.

Lemma insert_sorted_Permutation {A} (le : A -> A -> bool) (x : A) (l : list A) :
  Permutation (insert_sorted le x l) (x :: l).
Proof.
  induction l as [| y l IH]; cbn; [reflexivity |].
  destruct (le x y); [reflexivity |].
  rewrite IH. apply perm_swap.
Qed.

Lemma sort_by_Permutation {A} (le : A -> A -> bool) (l : list A) :
  Permutation (sort_by le l) l.
Proof.
  induction l as [| x l IH]; cbn; [reflexivity |].
  rewrite insert_sorted_Permutation. now constructor.
Qed.

Lemma Sorted_skipn {A} (R : A -> A -> Prop) (n : nat) (l : list A) :
  Sorted R l -> Sorted R (skipn n l).
Proof.
  revert l. induction n as [| n IH]; intros l H; cbn; [assumption |].
  destruct l as [| a l]; [constructor |].
  apply IH. now inversion H.
Qed.

Lemma Sorted_firstn {A} (R : A -> A -> Prop) (n : nat) (l : list A) :
  Sorted R l -> Sorted R (firstn n l).
Proof.
  revert l. induction n as [| n IH]; intros l H; cbn; [constructor |].
  destruct l as [| a l]; [constructor |].
  inversion H as [| ? ? Hs Hd]; subst. constructor; [now apply IH |].
  destruct n; cbn; [constructor |].
  destruct l; [constructor |]. constructor. now inversion Hd.
Qed.

Lemma Sorted_map {A B} (R : A -> A -> Prop) (R' : B -> B -> Prop) (g : A -> B)
      (l : list A) :
  (forall a b, R a b -> R' (g a) (g b)) -> Sorted R l -> Sorted R' (map g l).
Proof.
  intros Hg. induction 1 as [| a l Hs IH Hd]; cbn; constructor; [assumption |].
  destruct Hd; cbn; constructor. now apply Hg.
Qed.

Lemma bson_leb_total (a b : JsVal) : bson_leb a b = false -> bson_leb b a = true.
Proof.
  destruct a, b; cbn; try discriminate; try reflexivity.
  - destruct b, b0; cbn; congruence.
  - intros H. destruct (String.leb_total s s0) as [E | E]; congruence.
  - rewrite Z.leb_gt, Z.leb_le. lia.
Qed.

Lemma sort_leb_total (s : SortSpec) (a b : Doc) :
  sort_leb s a b = false -> sort_leb s b a = true.
Proof.
  unfold sort_leb. destruct (Z.eqb (sort_dir s) 1); apply bson_leb_total.
Qed.

(** *** The paginated listing *)

Lemma get_prop_select_in (paths : list string) (k : string) (o : Object) :
  includes paths k = true ->
  get_prop k (filter (fun kv => includes paths (fst kv)) o) = get_prop k o.
Proof.
  intros Hk. induction o as [| [k' v] o IH]; cbn; [reflexivity |].
  destruct (includes paths k') eqn:E; cbn.
  - now rewrite IH.
  - destruct (String.eqb k k') eqn:Ek; [| assumption].
    apply String.eqb_eq in Ek. congruence.
Qed.

Lemma get_prop_select_out (paths : list string) (k : string) (o : Object) :
  includes paths k = false ->
  get_prop k (filter (fun kv => includes paths (fst kv)) o) = JUndefined.
Proof.
  intros Hk. induction o as [| [k' v] o IH]; cbn; [reflexivity |].
  destruct (includes paths k') eqn:E; cbn; [| assumption].
  destruct (String.eqb k k') eqn:Ek; [| assumption].
  apply String.eqb_eq in Ek. congruence.
Qed.

(** The answer of [findAll]: the page of the ordered matching credentials
    when both calls are answered and the skip is not negative, the empty
    page otherwise.  The collections are never changed. *)
Lemma findAll_answer (env : Env) (params : IQueryParams) (w : World) :
  let p := default 1%Z (page params) in
  let l := default 10%Z (limit params) in
  fst (AuthRepository.findAll env params w) =
  if negb (down env CallFind) && negb (down env CallCountDocuments)
     && negb (Z.ltb ((p - 1) * l) 0)
  then Ok (mkPaginated
             (map dashboardRow
                  (apply_limit l (skipn (Z.to_nat ((p - 1) * l)) (ordered env params w))))
             (mkPagination p l (Z.of_nat (List.length (matching env params w)))
                (ceil_div (Z.of_nat (List.length (matching env params w))) l)))
  else Ok (mkPaginated [] (mkPagination p l 0 (Num 0))).
Proof.
  cbn zeta.
  unfold AuthRepository.findAll, try_catch, bind, promise_all2,
    AuthUser_find, AuthUser_countDocuments, bind, store_call, read_authusers,
    ret, throw, logger_error, apply_skip, ordered, matching.
  destruct (down env CallFind); cbn.
  - destruct (down env CallCountDocuments); reflexivity.
  - destruct (Z.ltb _ 0); cbn.
    + destruct (down env CallCountDocuments); reflexivity.
    + destruct (down env CallCountDocuments); cbn; [reflexivity |].
      now rewrite map_map.
Qed.

Lemma findAll_answers (env : Env) (params : IQueryParams) (w : World) :
  exists pg w', AuthRepository.findAll env params w = (Ok pg, w')
                /\ stores w' = stores w.
Proof.
  unfold AuthRepository.findAll, try_catch, bind, promise_all2,
    AuthUser_find, AuthUser_countDocuments, bind, store_call, read_authusers,
    ret, throw, logger_error, apply_skip, stores.
  destruct (down env CallFind); cbn.
  - destruct (down env CallCountDocuments); cbn; eauto.
  - destruct (Z.ltb _ 0); cbn.
    + destruct (down env CallCountDocuments); cbn; eauto.
    + destruct (down env CallCountDocuments); cbn; eauto.
Qed.

Lemma ceil_div_ceiling (t l : Z) :
  (1 <= l)%Z ->
  exists k, ceil_div t l = Num k /\ ((k - 1) * l < t <= k * l)%Z.
Proof.
  intros Hl. unfold ceil_div.
  destruct (Z.eqb_spec l 0) as [E | _]; [lia |].
  exists (- (- t / l))%Z. split; [reflexivity |].
  pose proof (Z.div_mod (- t) l ltac:(lia)) as Hd.
  pose proof (Z.mod_pos_bound (- t) l ltac:(lia)) as Hm.
  nia.
Qed.

Lemma apply_limit_positive (l : Z) (docs : list Doc) :
  (1 <= l)%Z -> apply_limit l docs = firstn (Z.to_nat l) docs.
Proof.
  intros Hl. unfold apply_limit.
  destruct (Z.eqb_spec l 0) as [E | _]; [lia |].
  now rewrite Zabs2Nat.abs_nat_nonneg by lia.
Qed.

(** C6. For a query whose page [p] and limit [l] (the requested ones, or 1
    and 10 where the query leaves them out) are at least 1, the listing
    answers a page whose [page] and [limit] are [p] and [l], with at most
    [l] rows, and whose [totalPages] is the ceiling of [total / limit];
    when the store answers, [total] counts the matching credentials and the
    rows are those of the ordered matching credentials after the first
    [(p - 1) * l] are skipped, up to [l] of them. *)
Theorem findAll_pagination (env : Env) (params : IQueryParams) (w : World) (p l : Z) :
  default 1%Z (page params) = p -> default 10%Z (limit params) = l ->
  (1 <= p)%Z -> (1 <= l)%Z ->
  exists pg w',
    AuthRepository.findAll env params w = (Ok pg, w')
    /\ p_page (pagination pg) = p
    /\ p_limit (pagination pg) = l
    /\ (List.length (data pg) <= Z.to_nat l)%nat
    /\ (exists k, p_totalPages (pagination pg) = Num k
                  /\ ((k - 1) * l < p_total (pagination pg) <= k * l)%Z)
    /\ (down env CallFind = false -> down env CallCountDocuments = false ->
        data pg = map dashboardRow
                      (firstn (Z.to_nat l)
                              (skipn (Z.to_nat ((p - 1) * l)) (ordered env params w)))
        /\ p_total (pagination pg) = Z.of_nat (List.length (matching env params w))).
Proof.
  intros Hp Hl Hp1 Hl1.
  destruct (findAll_answers env params w) as (pg & w' & E & _).
  exists pg, w'. split; [exact E |].
  pose proof (findAll_answer env params w) as H. cbn zeta in H.
  rewrite E, Hp, Hl in H. cbn [fst] in H.
  assert (Hs : Z.ltb ((p - 1) * l) 0 = false) by (apply Z.ltb_ge; nia).
  rewrite Hs, apply_limit_positive in H by assumption.
  destruct (negb (down env CallFind) && negb (down env CallCountDocuments)) eqn:Hup;
    cbn [andb negb] in H; injection H as ->; cbn [data pagination p_page p_limit
                                                   p_total p_totalPages].
  - apply andb_true_iff in Hup. destruct Hup as [Hf Hc].
    split; [reflexivity |]. split; [reflexivity |].
    split; [rewrite length_map; apply firstn_le_length |].
    split; [apply ceil_div_ceiling; assumption |].
    intros _ _. split; reflexivity.
  - split; [reflexivity |]. split; [reflexivity |].
    split; [cbn; lia |].
    split; [exists 0%Z; split; [reflexivity | lia] |].
    intros Hf Hc. rewrite Hf, Hc in Hup. discriminate.
Qed.

Lemma findAll_pagination_witness :
  exists pg w',
    AuthRepository.findAll Sample.env_up (mkQuery (Some 2%Z) (Some 1%Z) None None None)
                           Sample.world = (Ok pg, w')
    /\ p_page (pagination pg) = 2%Z
    /\ p_limit (pagination pg) = 1%Z
    /\ (List.length (data pg) <= Z.to_nat 1)%nat
    /\ (exists k, p_totalPages (pagination pg) = Num k
                  /\ ((k - 1) * 1 < p_total (pagination pg) <= k * 1)%Z)
    /\ (down Sample.env_up CallFind = false ->
        down Sample.env_up CallCountDocuments = false ->
        data pg = map dashboardRow
                      (firstn (Z.to_nat 1)
                              (skipn (Z.to_nat ((2 - 1) * 1))
                                     (ordered Sample.env_up
                                        (mkQuery (Some 2%Z) (Some 1%Z) None None None)
                                        Sample.world)))
        /\ p_total (pagination pg)
           = Z.of_nat (List.length (matching Sample.env_up
                                      (mkQuery (Some 2%Z) (Some 1%Z) None None None)
                                      Sample.world))).
Proof.
  apply (findAll_pagination Sample.env_up
           (mkQuery (Some 2%Z) (Some 1%Z) None None None) Sample.world
           (p := 2%Z) (l := 1%Z)); [reflexivity | reflexivity | lia | lia].
Defined.

(** *** The order of the listing *)

Lemma normalize_select_path (k : string) (d : Doc) :
  includes AuthRepository.allowedSortFields k = true ->
  get_prop k (dashboardRow d) = get_prop k (props d).
Proof.
  intros H. cbn in H. rewrite !orb_true_iff in H.
  unfold dashboardRow, AuthRepository.normalize, select.
  destruct H as [H | [H | [H | [H | H]]]]; try discriminate;
    apply String.eqb_eq in H; subst k; cbn [get_prop String.eqb Ascii.eqb Bool.eqb props];
    cbn -[get_prop includes]; now apply get_prop_select_in.
Qed.

Lemma sortSpec_path_allowed (sortBy sortOrder : string) :
  includes AuthRepository.allowedSortFields
           (sort_path (AuthRepository.sortSpec sortBy sortOrder)) = true.
Proof.
  unfold AuthRepository.sortSpec. cbn [sort_path].
  destruct (includes AuthRepository.allowedSortFields sortBy) eqn:E;
    [assumption | reflexivity].
Qed.

Lemma Sorted_apply_limit (R : Doc -> Doc -> Prop) (n : Z) (l : list Doc) :
  Sorted R l -> Sorted R (apply_limit n l).
Proof.
  intros H. unfold apply_limit. destruct (Z.eqb n 0); [assumption |].
  now apply Sorted_firstn.
Qed.

Lemma rows_in_order (s : SortSpec) (docs : list Doc) :
  includes AuthRepository.allowedSortFields (sort_path s) = true ->
  Sorted (holds (sort_leb s)) docs ->
  Sorted (in_order (sort_path s) (sort_dir s)) (map dashboardRow docs).
Proof.
  intros Hs. apply Sorted_map. intros a b.
  unfold holds, sort_leb, in_order, ascending_on, descending_on.
  rewrite !(normalize_select_path _ _ Hs).
  now destruct (Z.eqb (sort_dir s) 1).
Qed.

(** C10. The listing falls back to [createdAt] and to the descending order.
    The rows of every listing are in the order of the effective sort
    specification; when the requested [sortBy] is not one of [username],
    [email], [createdAt], [updatedAt], that is an order on [createdAt]; and
    for every [sortOrder] other than ["asc"], that is the descending order.
    When the store answers, the rows are a slice of the ordered matching
    credentials, which are a rearrangement of the matching ones. *)
Theorem findAll_sort_fallback (env : Env) (params : IQueryParams) (w : World) :
  let requested := default "createdAt" (sortBy params) in
  let order := default "desc" (sortOrder params) in
  let spec := AuthRepository.sortSpec requested order in
  let p := default 1%Z (page params) in
  let l := default 10%Z (limit params) in
  let rows := listed (fst (AuthRepository.findAll env params w)) in
  Sorted (in_order (sort_path spec) (sort_dir spec)) rows
  /\ (includes AuthRepository.allowedSortFields requested = false ->
      Sorted (in_order "createdAt" (sort_dir spec)) rows)
  /\ (order <> "asc" -> Sorted (descending_on (sort_path spec)) rows)
  /\ (includes AuthRepository.allowedSortFields requested = false ->
      order <> "asc" -> Sorted (descending_on "createdAt") rows)
  /\ (down env CallFind = false -> down env CallCountDocuments = false ->
      (0 <= (p - 1) * l)%Z ->
      rows = map dashboardRow
                 (apply_limit l (skipn (Z.to_nat ((p - 1) * l)) (ordered env params w))))
  /\ Sorted (holds (sort_leb spec)) (ordered env params w)
  /\ Permutation (ordered env params w) (matching env params w).
Proof.
  cbn zeta.
  set (requested := default "createdAt" (sortBy params)).
  set (order := default "desc" (sortOrder params)).
  set (spec := AuthRepository.sortSpec requested order).
  assert (Hord : Sorted (holds (sort_leb spec)) (ordered env params w)).
  { apply sort_by_Sorted. apply sort_leb_total. }
  assert (Hrows : Sorted (in_order (sort_path spec) (sort_dir spec))
                         (listed (fst (AuthRepository.findAll env params w)))).
  { pose proof (findAll_answer env params w) as H. cbn zeta in H. rewrite H.
    destruct (negb (down env CallFind) && negb (down env CallCountDocuments) && _);
      cbn [listed data]; [| constructor].
    apply rows_in_order; [apply sortSpec_path_allowed |].
    now apply Sorted_apply_limit, Sorted_skipn. }
  assert (Hpath : includes AuthRepository.allowedSortFields requested = false ->
                  sort_path spec = "createdAt").
  { intros H. unfold spec, AuthRepository.sortSpec. cbn [sort_path]. now rewrite H. }
  assert (Hdir : order <> "asc" -> Z.eqb (sort_dir spec) 1 = false).
  { intros H. unfold spec, AuthRepository.sortSpec. cbn [sort_dir].
    apply String.eqb_neq in H. now rewrite H. }
  split; [exact Hrows |].
  split; [intros H; rewrite <- (Hpath H); exact Hrows |].
  split; [intros H; unfold in_order in Hrows; rewrite (Hdir H) in Hrows; exact Hrows |].
  split; [intros H1 H2; rewrite <- (Hpath H1); unfold in_order in Hrows;
          rewrite (Hdir H2) in Hrows; exact Hrows |].
  split; [| split; [exact Hord | apply sort_by_Permutation]].
  intros Hf Hc Hs.
  pose proof (findAll_answer env params w) as H. cbn zeta in H. rewrite H, Hf, Hc.
  assert (E : Z.ltb ((default 1%Z (page params) - 1) * default 10%Z (limit params)) 0
              = false) by now apply Z.ltb_ge.
  now rewrite E.
Qed.

Lemma findAll_sort_fallback_witness :
  Sorted (descending_on "createdAt")
         (listed (fst (AuthRepository.findAll Sample.env_up
                         (mkQuery None None None (Some "password") (Some "ASC"))
                         Sample.world)))
  /\ map (get_prop "createdAt")
         (listed (fst (AuthRepository.findAll Sample.env_up
                         (mkQuery None None None (Some "password") (Some "ASC"))
                         Sample.world)))
     = [JDate 20; JDate 10].
Proof.
  split; [| reflexivity].
  apply (findAll_sort_fallback Sample.env_up
           (mkQuery None None None (Some "password") (Some "ASC")) Sample.world);
    [reflexivity | discriminate].
Defined.

(** *** The rows of the listing *)

Lemma In_skipn {A} (n : nat) (l : list A) (x : A) : In x (skipn n l) -> In x l.
Proof.
  revert l. induction n as [| n IH]; intros [| a l]; cbn; auto.
Qed.

Lemma In_firstn {A} (n : nat) (l : list A) (x : A) : In x (firstn n l) -> In x l.
Proof.
  revert l. induction n as [| n IH]; intros [| a l]; cbn; try tauto.
  intros [H | H]; auto.
Qed.

Lemma In_apply_limit (n : Z) (l : list Doc) (d : Doc) :
  In d (apply_limit n l) -> In d l.
Proof.
  unfold apply_limit. destruct (Z.eqb n 0); [auto | apply In_firstn].
Qed.

Lemma listed_rows (env : Env) (params : IQueryParams) (w : World) (o : Object) :
  In o (listed (fst (AuthRepository.findAll env params w))) ->
  exists d, In d (authusers w) /\ o = dashboardRow d.
Proof.
  pose proof (findAll_answer env params w) as H. cbn zeta in H. rewrite H.
  destruct (negb (down env CallFind) && negb (down env CallCountDocuments) && _);
    cbn [listed data]; [| intros []].
  intros Hin. apply in_map_iff in Hin. destruct Hin as (d & <- & Hd).
  exists d. split; [| reflexivity].
  apply In_apply_limit, In_skipn in Hd.
  unfold ordered in Hd.
  apply (Permutation_in _ (sort_by_Permutation _ _)) in Hd.
  unfold matching in Hd. now apply filter_In in Hd.
Qed.

(** C2, as the code has it.  Every row of the paginated listing is the
    object [normalize] builds: it holds the eight fields of the account
    view, with the values of a stored credential, and besides them a
    [password] member that is always undefined and a [refreshToken] member
    that is always null.  Neither the stored password hash nor the stored
    refresh token is ever in a row. *)
Theorem findAll_row_fields (env : Env) (params : IQueryParams) (w : World) (o : Object) :
  In o (listed (fst (AuthRepository.findAll env params w))) ->
  keys o = entityFields
  /\ get_prop "password" o = JUndefined
  /\ get_prop "refreshToken" o = JNull
  /\ exists d,
       In d (authusers w)
       /\ get_prop "id" o = JStr (_id d)
       /\ forall k, In k AuthRepository.dashboardPaths ->
                    get_prop k o = get_prop k (props d).
Proof.
  intros Hin. apply listed_rows in Hin. destruct Hin as (d & Hd & ->).
  unfold dashboardRow, AuthRepository.normalize, select. cbn [props _id].
  split; [reflexivity |].
  split; [cbn -[includes]; now apply get_prop_select_out |].
  split; [cbn -[includes]; now rewrite get_prop_select_out |].
  exists d. split; [assumption |]. split; [reflexivity |].
  intros k Hk.
  unfold AuthRepository.dashboardPaths in Hk. cbn in Hk.
  destruct Hk as [<- | [<- | [<- | [<- | [<- | [<- | [<- | []]]]]]]];
    cbn -[includes]; now apply get_prop_select_in.
Qed.

Lemma findAll_row_fields_witness :
  keys (dashboardRow Sample.alice) = entityFields
  /\ get_prop "password" (dashboardRow Sample.alice) = JUndefined
  /\ get_prop "refreshToken" (dashboardRow Sample.alice) = JNull
  /\ exists d,
       In d (authusers Sample.world)
       /\ get_prop "id" (dashboardRow Sample.alice) = JStr (_id d)
       /\ forall k, In k AuthRepository.dashboardPaths ->
                    get_prop k (dashboardRow Sample.alice) = get_prop k (props d).
Proof.
  apply (findAll_row_fields Sample.env_up Sample.no_query Sample.world).
  right. left. reflexivity.
Defined.

(** The claim of C2 fails on the listing of the sample world: the row of
    alice holds a [refreshToken] member (null, and kept by JSON) and a
    [password] member, which are not fields of the account view. *)
Lemma findAll_row_fields_counterexample :
  In (dashboardRow Sample.alice)
     (listed (fst (AuthRepository.findAll Sample.env_up Sample.no_query Sample.world)))
  /\ ~ has_exactly accountViewFields (dashboardRow Sample.alice)
  /\ In "refreshToken" (json_keys (dashboardRow Sample.alice))
  /\ In "password" (keys (dashboardRow Sample.alice)).
Proof.
  split; [right; left; reflexivity |].
  split; [| split; vm_compute; tauto].
  intros H. destruct (H "refreshToken") as [Hview _].
  assert (X : In "refreshToken" accountViewFields).
  { apply Hview. vm_compute. tauto. }
  cbn in X. repeat (destruct X as [X | X]; [discriminate X |]). exact X.
Qed.

(** *** Store failures *)

Ltac run_repository :=
  unfold perform, answering, rejected, store_fails, silent_answer, stores,
    rollback_rejected,
    AuthRepository.findAll, AuthRepository.create, AuthRepository.findByEmail,
    AuthRepository.findByUsername, AuthRepository.findById,
    AuthRepository.removeRefreshTokenById, AuthRepository.updateById,
    AuthRepository.deleteById,
    try_catch, bind, promise_all2, startSession, startTransaction,
    commitTransaction, abortTransaction, endSession, logger_error,
    AuthUser_find, AuthUser_countDocuments, AuthUser_findOne, AuthUser_findById,
    AuthUser_findByIdAndUpdate, AuthUser_findByIdAndDelete, AuthUser_create,
    User_create, cast_id, store_call, read_authusers, read_users,
    write_authusers, write_users, apply_skip, bind, ret, throw.

Ltac split_on_store :=
  repeat match goal with
         | |- context [if ?c then _ else _] => destruct c eqn:?; cbn
         | |- context [match find ?f ?l with _ => _ end] => destruct (find f l) eqn:?; cbn
         | |- context [match auth_conflict ?d ?l with _ => _ end] =>
             destruct (auth_conflict d l) eqn:?; cbn
         end.

Lemma answering_run {A} (f : A -> Answer) (m : M A) (w : World) :
  fst (answering f m w)
  = match fst (m w) with
    | Ok a => Ok (f a)
    | Throw e => Throw e
    end
  /\ snd (answering f m w) = snd (m w).
Proof.
  unfold answering. destruct (m w) as [[a | e] w']; auto.
Qed.

Lemma store_fails_create (env : Env) (data : Object) (w : World) :
  store_fails env (OpCreate data) w
  = transaction_started env && negb (writes_accepted env data w).
Proof.
  unfold store_fails, transaction_started, writes_accepted, createdCredential,
    rejected, startSession, startTransaction,
    AuthUser_create, User_create, bind, store_call, read_authusers, read_users,
    throw, ret.
  destruct (down env CallStartSession); cbn; [reflexivity |].
  destruct (down env CallStartTransaction); cbn; [reflexivity |].
  destruct (down env CallAuthCreate); cbn; [reflexivity |].
  rewrite !app_nil_r.
  destruct (auth_conflict _ (authusers w)); cbn; [reflexivity |].
  destruct (down env CallUserCreate); cbn; [reflexivity |].
  rewrite !app_nil_r, profileOf_id. cbn [_id].
  now destruct (existsb (has_id (newObjectId env)) (users w)).
Qed.

(** C3, as the code has it.  A failure of a call that a method makes on a
    model inside its [try] is not reported as a failure: the rejection is
    caught and handed to the logger, the collections are left as they
    were, and the caller gets null (from [create] also for a duplicate
    username or email, as for any other rejection), or from [findAll] an
    empty page with total 0.  What [create] does outside its [try] is not
    caught: when the rollback is rejected, or the session or its
    transaction cannot be started, [create] rejects with the error of the
    store, nothing is logged and the collections are as they were.  A
    rejected commit is caught like a rejected write and the rollback is
    called: [create] logs the rejection and answers null when the rollback
    goes through, and rejects with nothing logged when it does not. *)
Theorem store_failure_is_silent (env : Env) (op : Operation) (w : World) :
  (store_fails env op w = true -> rollback_rejected env op = false ->
   fst (perform env op w) = Ok (silent_answer op)
   /\ stores (snd (perform env op w)) = stores w
   /\ exists e, logged (snd (perform env op w)) = logged w ++ [e])
  /\ (store_fails env op w = true -> rollback_rejected env op = true ->
      fst (perform env op w) = Throw (StoreExn StoreUnavailable)
      /\ stores (snd (perform env op w)) = stores w
      /\ logged (snd (perform env op w)) = logged w)
  /\ (forall data, op = OpCreate data -> transaction_started env = false ->
      fst (perform env op w) = Throw (StoreExn StoreUnavailable)
      /\ stores (snd (perform env op w)) = stores w
      /\ logged (snd (perform env op w)) = logged w)
  /\ (forall data, op = OpCreate data -> transaction_started env = true ->
      writes_accepted env data w = true ->
      down env CallCommitTransaction = true ->
      (down env CallAbortTransaction = false ->
       fst (perform env op w) = Ok (Entity None)
       /\ exists e, logged (snd (perform env op w)) = logged w ++ [e])
      /\ (down env CallAbortTransaction = true ->
          fst (perform env op w) = Throw (StoreExn StoreUnavailable)
          /\ logged (snd (perform env op w)) = logged w)).
Proof.
  destruct op as [params | data | email | username | id | id | id upd | id];
    try (split; [| split; [intros _; discriminate
                          | split; intros ? ?; discriminate]];
         run_repository; cbn; split_on_store; try discriminate;
         intros _ _; cbn; eauto).
  unfold perform, rollback_rejected.
  destruct (answering_run Entity (AuthRepository.create env data) w) as [Hf Hs].
  rewrite Hf, Hs, store_fails_create.
  split; [| split; [| split]].
  4: { intros data' [= <-] H1 H2 H3.
       destruct (create_commit_rejected env data w H1 H2 H3) as (Hok & Hko).
       split; intros Hab.
       - destruct (Hok Hab) as (Hr & Hl). rewrite Hr. auto.
       - destruct (Hko Hab) as (Hr & Hl). rewrite Hr. auto. }
  - intros Hfail Hab. apply andb_true_iff in Hfail. destruct Hfail as [H1 H2].
    apply negb_true_iff in H2.
    destruct (create_refused env data w H1 H2) as (Hr & Hst & _ & Hl).
    rewrite Hr. unfold after_rollback. rewrite Hab. auto.
  - intros Hfail Hab. apply andb_true_iff in Hfail. destruct Hfail as [H1 H2].
    apply negb_true_iff in H2.
    destruct (create_refused env data w H1 H2) as (Hr & Hst & Hl & _).
    rewrite Hr. unfold after_rollback. rewrite Hab. auto.
  - intros data' _ Hdown.
    destruct (create_no_session env data w Hdown) as (Hr & Hst & Hl).
    rewrite Hr. auto.
Qed.

Lemma store_failure_is_silent_witness :
  fst (perform Sample.env_up (OpCreate (Sample.entity "carol" "alice@x.com"))
         Sample.world) = Ok (Entity None)
  /\ stores (snd (perform Sample.env_up (OpCreate (Sample.entity "carol" "alice@x.com"))
                    Sample.world)) = stores Sample.world
  /\ exists e,
       logged (snd (perform Sample.env_up (OpCreate (Sample.entity "carol" "alice@x.com"))
                      Sample.world)) = logged Sample.world ++ [e].
Proof.
  apply (proj1 (store_failure_is_silent Sample.env_up
                  (OpCreate (Sample.entity "carol" "alice@x.com")) Sample.world));
    reflexivity.
Defined.

(** The claim of C3 fails on the sample world.  The store refuses a second
    credential with alice's email by a duplicate-key error, and [create]
    answers null, the answer it also gives when the store rejects the
    creation call for any other reason; and with the store unreachable
    [findAll] answers the page it answers on an empty collection. *)
Lemma store_failure_counterexample :
  fst (AuthUser_create Sample.env_up
         (AuthRepository.credentialOf (Sample.entity "carol" "alice@x.com"))
         (mkSession [] []) Sample.world)
  = Throw (StoreExn (DuplicateKey "email"))
  /\ fst (AuthRepository.create Sample.env_up (Sample.entity "carol" "alice@x.com")
            Sample.world) = Ok None
  /\ fst (AuthRepository.create Sample.env_no_credentials
            (Sample.entity "carol" "carol@x.com") Sample.world) = Ok None
  /\ store_fails Sample.env_down (OpFindAll Sample.no_query) Sample.world = true
  /\ fst (AuthRepository.findAll Sample.env_down Sample.no_query Sample.world)
     = fst (AuthRepository.findAll Sample.env_up Sample.no_query Sample.empty_world).
Proof.
  repeat split; reflexivity.
Qed.

(** *** Normalization at registration *)

Lemma trimEnd_idem (s : string) : trimEnd (trimEnd s) = trimEnd s.
Proof.
  induction s as [| c s IH]; cbn; [reflexivity |].
  destruct (trimEnd s) as [| c' t] eqn:E.
  - destruct (is_space c) eqn:Ec; cbn; [reflexivity | now rewrite Ec].
  - cbn in IH |- *. now rewrite IH.
Qed.

Lemma trimStart_starts_plain (s : string) : starts_plain (trimStart s).
Proof.
  induction s as [| c s IH]; cbn; [exact I |].
  destruct (is_space c) eqn:E; [assumption | exact E].
Qed.

Lemma trimStart_plain (s : string) : starts_plain s -> trimStart s = s.
Proof.
  destruct s as [| c s]; cbn; [reflexivity |]. now intros ->.
Qed.

Lemma trimEnd_starts_plain (s : string) : starts_plain s -> starts_plain (trimEnd s).
Proof.
  destruct s as [| c s]; cbn; [auto |].
  intros H. destruct (trimEnd s); [rewrite H |]; exact H.
Qed.

Lemma trim_idem (s : string) : trim (trim s) = trim s.
Proof.
  unfold trim.
  rewrite (trimStart_plain (trimEnd (trimStart s))).
  - apply trimEnd_idem.
  - apply trimEnd_starts_plain, trimStart_starts_plain.
Qed.

Lemma name_char_plain (c : ascii) :
  name_char c = true -> is_space c = false /\ lower_char c = c.
Proof.
  destruct c as [[] [] [] [] [] [] [] []]; vm_compute; intuition congruence.
Qed.

Lemma name_trimEnd (s : string) : all_chars name_char s = true -> trimEnd s = s.
Proof.
  induction s as [| c s IH]; cbn; [reflexivity |].
  intros H. apply andb_true_iff in H. destruct H as [Hc Hs].
  rewrite (IH Hs). destruct s; [| reflexivity].
  now rewrite (proj1 (name_char_plain c Hc)).
Qed.

Lemma name_trimmed (s : string) : all_chars name_char s = true -> trim s = s.
Proof.
  intros H. unfold trim. rewrite trimStart_plain; [now apply name_trimEnd |].
  destruct s as [| c s]; cbn in *; [exact I |].
  apply andb_true_iff in H. now apply name_char_plain.
Qed.

Lemma name_lowercase (s : string) : all_chars name_char s = true -> toLowerCase s = s.
Proof.
  induction s as [| c s IH]; cbn; [reflexivity |].
  intros H. apply andb_true_iff in H. destruct H as [Hc Hs].
  rewrite (IH Hs).
  now rewrite (proj2 (name_char_plain c Hc)).
Qed.

Lemma get_prop_notin (k : string) (o : Object) :
  ~ In k (keys o) -> get_prop k o = JUndefined.
Proof.
  induction o as [| [k' v] o IH]; cbn; [reflexivity |].
  intros H. destruct (String.eqb_spec k k') as [-> | _]; [tauto |].
  apply IH. tauto.
Qed.

Lemma get_prop_defined_members (k : string) (o : Object) :
  NoDup (keys o) -> get_prop k (defined_members o) = get_prop k o.
Proof.
  unfold defined_members.
  induction o as [| [k' v] o IH]; cbn; [reflexivity |].
  intros H. inversion H as [| ? ? Hk Ho]; subst.
  destruct (String.eqb_spec k k') as [-> | Hne].
  - destruct v; cbn; rewrite ?String.eqb_refl; try reflexivity.
    rewrite (IH Ho). now apply get_prop_notin.
  - destruct v; cbn; rewrite ?(proj2 (String.eqb_neq k k') Hne); now apply IH.
Qed.

Lemma get_prop_app_notin (k : string) (a b : Object) :
  ~ In k (keys b) -> get_prop k (a ++ b) = get_prop k a.
Proof.
  intros H. induction a as [| [k' v] a IH]; cbn.
  - now apply get_prop_notin.
  - now rewrite IH.
Qed.

Lemma created_path (env : Env) (data : Object) (k : string) :
  In k ["username"; "email"] ->
  get_prop k (props (createdCredential env data)) = get_prop k data.
Proof.
  intros Hk. unfold createdCredential. cbn [props].
  assert (Hd : NoDup (keys (AuthRepository.credentialOf data))).
  { unfold AuthRepository.credentialOf. cbn.
    repeat (constructor; [cbn; intuition discriminate |]). constructor. }
  destruct Hk as [<- | [<- | []]];
    (rewrite get_prop_app_notin by (cbn; intuition discriminate));
    rewrite (@get_prop_defined_members _ _ Hd); reflexivity.
Qed.

(** What [create] stores under [username] and [email] is what it was
    given there. *)
Lemma create_stores_as_given (env : Env) (data : Object) (w : World) (e : Object) :
  fst (AuthRepository.create env data w) = Ok (Some e) ->
  exists auth,
    authusers (snd (AuthRepository.create env data w)) = authusers w ++ [auth]
    /\ get_prop "username" (props auth) = get_prop "username" data
    /\ get_prop "email" (props auth) = get_prop "email" data.
Proof.
  intros He. destruct (create_success env data w He) as (_ & Hst & _).
  unfold stores, both_created in Hst. injection Hst as Ha _.
  exists (createdCredential env data). split; [exact Ha |].
  split; apply created_path; cbn; auto.
Qed.

(** X19. What [registerUserSchema] does to a registration.  An input that
    the schema accepts comes out with its username trimmed and lowercased,
    and with its email trimmed, the case of the email kept; and the
    repository's [create] stores the username and the email of the entity
    it is given unchanged. *)
Theorem register_normalization (isEmail : string -> bool)
        (input out : Schemas.RegisterUser) :
  Schemas.registerUserSchema isEmail input = Some out ->
  Schemas.r_username out = toLowerCase (trim (Schemas.r_username input))
  /\ trimmed (Schemas.r_username out) /\ lowercase (Schemas.r_username out)
  /\ Schemas.r_email out = trim (Schemas.r_email input)
  /\ trimmed (Schemas.r_email out)
  /\ (forall env data w e,
        fst (AuthRepository.create env data w) = Ok (Some e) ->
        exists auth,
          authusers (snd (AuthRepository.create env data w)) = authusers w ++ [auth]
          /\ get_prop "username" (props auth) = get_prop "username" data
          /\ get_prop "email" (props auth) = get_prop "email" data).
Proof.
  unfold Schemas.registerUserSchema, Schemas.register_username,
    Schemas.register_email.
  destruct (nonempty (Schemas.r_username input) && _ && _) eqn:Hu; [| discriminate].
  destruct (nonempty (Schemas.r_email input) && _) eqn:He; [| discriminate].
  destruct (Schemas.password_rule _); [| discriminate].
  intros [= <-]. cbn [Schemas.r_username Schemas.r_email].
  apply andb_true_iff in Hu. destruct Hu as [_ Hu].
  apply andb_true_iff in Hu. destruct Hu as [_ Hu].
  change (all_chars name_char (toLowerCase (trim (Schemas.r_username input))) = true)
    in Hu.
  split; [reflexivity |].
  split; [now apply name_trimmed |].
  split; [now apply name_lowercase |].
  split; [reflexivity |].
  split; [apply trim_idem |].
  apply create_stores_as_given.
Qed.

Lemma register_normalization_witness :
  Schemas.r_username
    (Schemas.mkRegister "alice_1" "Bob@Example.COM" "Passw0rd!")
  = toLowerCase (trim "  Alice_1 ")
  /\ Schemas.r_email
       (Schemas.mkRegister "alice_1" "Bob@Example.COM" "Passw0rd!")
     = trim " Bob@Example.COM ".
Proof.
  pose proof (register_normalization Schemas.zod_email
                (Schemas.mkRegister "  Alice_1 " " Bob@Example.COM " "Passw0rd!")
                (out := Schemas.mkRegister "alice_1" "Bob@Example.COM" "Passw0rd!")
                eq_refl) as (Hu & _ & _ & He & _).
  split; [exact Hu | exact He].
Defined.

(** *** Account update *)

Lemma updateById_unresolved (env : Env) (id : string) (u : Object) (w : World) :
  find (has_id id) (authusers w) = None ->
  exists w', AuthRepository.updateById env id u w = (Ok None, w')
             /\ stores w' = stores w.
Proof.
  intros Hf. run_repository.
  destruct (isValid env id); cbn; eauto.
  destruct (down env CallFindByIdAndUpdate); cbn; eauto.
  rewrite find_canonical, Hf. cbn. eauto.
Qed.

Lemma parse_members_undefined (ms : list (string * (JsVal -> option JsVal)))
      (input out : Object) :
  (forall k rule, In (k, rule) ms -> rule (get_prop k input) = Some JUndefined) ->
  Schemas.parse_members ms input = Some out ->
  Forall (fun kv => snd kv = JUndefined) out.
Proof.
  revert out. induction ms as [| [k rule] ms IH]; cbn; intros out Hall.
  - intros [= <-]. constructor.
  - rewrite (Hall k rule) by now left.
    destruct (Schemas.parse_members ms input) as [out' |]; [| discriminate].
    assert (Hout : Forall (fun kv => snd kv = JUndefined) out').
    { apply IH; [| reflexivity]. intros k' rule' Hin. apply Hall. now right. }
    destruct (has_key k input || negb (is_undefined JUndefined)); intros [= <-];
      [constructor; [reflexivity | exact Hout] | exact Hout].
Qed.

Lemma refine_undefined (out : Object) :
  Forall (fun kv => snd kv = JUndefined) out -> Schemas.updateAuth_refine out = false.
Proof.
  unfold Schemas.updateAuth_refine.
  induction 1 as [| [k v] out Hv Hout IH]; cbn; [reflexivity |].
  cbn in Hv. subst v. exact IH.
Qed.

(** C7.  An account update with an empty update set (no body, or a body
    without members) fails with NoFieldsProvided, before the service is
    reached and with the world as it was; an update whose id does not
    resolve to a stored credential fails with AccountNotFound and leaves
    the collections as they were; and [updateAuthSchema] refuses every
    input that holds none of the six members. *)
Theorem updateById_failures (env : Env) (req : Request) (w : World) (id : string) :
  params_id req = Some id -> nonempty id = true ->
  (AuthController.no_updates (body req) = true ->
   AuthController.updateById env req w = (Throw (ApiExn NoFieldsProvided), w))
  /\ (forall updates,
        body req = Some updates -> keys updates <> [] ->
        find (has_id id) (authusers w) = None ->
        fst (AuthController.updateById env req w) = Throw (ApiExn AccountNotFound)
        /\ stores (snd (AuthController.updateById env req w)) = stores w)
  /\ (forall isEmail roles statuses input,
        (forall k, In k updateFields -> get_prop k input = JUndefined) ->
        Schemas.updateAuthSchema isEmail roles statuses input = None).
Proof.
  intros Hid Hne. unfold AuthController.updateById, AuthController.missing.
  rewrite Hid, Hne. cbn [negb default].
  split; [| split].
  - intros ->. reflexivity.
  - intros updates Hb Hk Hf. rewrite Hb. cbn [AuthController.no_updates default].
    destruct (keys updates) as [| k ks] eqn:Ek; [contradiction |].
    cbn [List.length Nat.eqb].
    destruct (updateById_unresolved env id updates w Hf) as (w' & E & Hs).
    unfold AuthService.updateAuth. rewrite Ek.
    unfold bind, throw, ret. rewrite E. cbn.
    split; [reflexivity | exact Hs].
  - intros isEmail roles statuses input Hnone.
    unfold Schemas.updateAuthSchema.
    destruct (Schemas.parse_members _ input) as [out |] eqn:Hp; [| reflexivity].
    rewrite refine_undefined; [reflexivity |].
    apply (@parse_members_undefined (Schemas.updateAuthMembers isEmail roles statuses)
             input out); [| exact Hp].
    intros k rule Hin. unfold Schemas.updateAuthMembers in Hin. cbn in Hin.
    destruct Hin as [E | [E | [E | [E | [E | [E | []]]]]]];
      injection E as <- <-;
      (rewrite Hnone by (unfold updateFields; cbn; tauto)); reflexivity.
Qed.

Lemma updateById_failures_witness :
  AuthController.updateById Sample.env_up
    (mkRequest (Some "650000000000000000000002") (Some [])) Sample.world
  = (Throw (ApiExn NoFieldsProvided), Sample.world)
  /\ fst (AuthController.updateById Sample.env_up
            (mkRequest (Some "650000000000000000000009")
                       (Some [("username", JStr "zed")])) Sample.world)
     = Throw (ApiExn AccountNotFound).
Proof.
  split.
  - apply (updateById_failures Sample.env_up
             (mkRequest (Some "650000000000000000000002") (Some [])) Sample.world
             (id := "650000000000000000000002")); reflexivity.
  - eapply (proj1 (proj2 (updateById_failures Sample.env_up
             (mkRequest (Some "650000000000000000000009")
                        (Some [("username", JStr "zed")])) Sample.world
             (id := "650000000000000000000009") eq_refl eq_refl)));
      [reflexivity | discriminate | reflexivity].
Defined.

(** *** What [create] answers *)

(** The entity [create] answers is the whole credential: it holds the
    password it was given. *)
Example create_answer_holds_password :
  exists o,
    fst (AuthRepository.create Sample.env_up (Sample.entity "carol" "carol@x.com")
           Sample.world) = Ok (Some o)
    /\ get_prop "password" o = JStr "$2b$10$zyxwvutsrqponmlkjihgfe"
    /\ keys o = entityFields.
Proof.
  eexists. repeat split.
Qed.

(* ------------------------------------------------------------------ *)
(** ** Further properties of the repository *)

(** *** Create, then look up *)

Lemma auth_conflict_none (d : Doc) (docs : list Doc) :
  auth_conflict d docs = None ->
  existsb (has_id (_id d)) docs = false
  /\ existsb (same_at "username" d) docs = false
  /\ existsb (same_at "email" d) docs = false.
Proof.
  unfold auth_conflict.
  destruct (existsb (has_id (_id d)) docs); [discriminate |].
  destruct (existsb (same_at "username" d) docs); [discriminate |].
  destruct (existsb (same_at "email" d) docs); [discriminate |].
  auto.
Qed.

Lemma find_app_last {A} (f : A -> bool) (l : list A) (a : A) :
  (forall x, In x l -> f x = false) -> f a = true -> find f (l ++ [a]) = Some a.
Proof.
  intros Hl Ha. induction l as [| x l IH]; cbn.
  - now rewrite Ha.
  - rewrite (Hl x) by now left. apply IH. intros y Hy. apply Hl. now right.
Qed.

Lemma existsb_false_In {A} (f : A -> bool) (l : list A) (x : A) :
  existsb f l = false -> In x l -> f x = false.
Proof.
  intros H Hin. destruct (f x) eqn:E; [| reflexivity].
  rewrite <- H. symmetry. apply existsb_exists. now exists x.
Qed.

Lemma find_by_path_after_create (env : Env) (data : Object) (w : World)
      (path value : string) :
  In path ["username"; "email"] ->
  get_prop path data = JStr value ->
  existsb (same_at path (createdCredential env data)) (authusers w) = false ->
  find (matches env (FEq path value)) (authusers w ++ [createdCredential env data])
  = Some (createdCredential env data).
Proof.
  intros Hp Hv Hno. apply find_app_last.
  - intros d Hd. pose proof (@existsb_false_In _ _ _ d Hno Hd) as Hs.
    unfold same_at in Hs. rewrite (@created_path env data _ Hp), Hv in Hs.
    cbn. destruct (get_prop path (props d)); try reflexivity.
    rewrite String.eqb_sym. exact Hs.
  - apply (matches_FEq env). now rewrite (@created_path env data _ Hp).
Qed.

(** X1. A created account is found again.  After [create] has answered an
    entity, [findByEmail] with the email of the given entity and [findById]
    with the id of the answer both answer that same entity (while the store
    answers); the uniqueness the store enforces on creation is what makes
    the new credential the one that is found. *)
Theorem create_then_lookup (env : Env) (data : Object) (w : World)
        (e : Object) (email : string) :
  fst (AuthRepository.create env data w) = Ok (Some e) ->
  get_prop "email" data = JStr email ->
  get_prop "id" e = JStr (newObjectId env)
  /\ (down env CallFindOne = false ->
      fst (AuthRepository.findByEmail env email
             (snd (AuthRepository.create env data w))) = Ok (Some e))
  /\ (isValid env (newObjectId env) = true -> down env CallFindById = false ->
      fst (AuthRepository.findById env (newObjectId env)
             (snd (AuthRepository.create env data w))) = Ok (Some e)).
Proof.
  intros Hc Hm. destruct (create_success env data w Hc) as (-> & Hst & Hno).
  unfold stores, both_created in Hst. injection Hst as Ha _.
  apply auth_conflict_none in Hno. destruct Hno as (Hid & _ & Hem).
  split; [reflexivity |]. split.
  - intros Hup. rewrite findByEmail_answer, Ha by assumption.
    now rewrite (find_by_path_after_create env data w (path := "email")
                   (value := email)) by (cbn; auto).
  - intros Hv Hup.
    remember (snd (AuthRepository.create env data w)) as w' eqn:Ew.
    unfold AuthRepository.findById, try_catch, bind, AuthUser_findById, cast_id,
      store_call, read_authusers, ret, throw.
    rewrite Hv. cbn. rewrite Hup. cbn. rewrite find_canonical, Ha.
    rewrite find_app_last; [reflexivity | | ].
    + intros d Hd. apply (@existsb_false_In _ _ _ d Hid Hd).
    + unfold has_id, createdCredential, newObjectId. cbn [_id].
      rewrite canonical_idem. apply String.eqb_refl.
Qed.

Lemma create_then_lookup_witness :
  exists e,
    fst (AuthRepository.create Sample.env_up (Sample.entity "carol" "carol@x.com")
           Sample.world) = Ok (Some e)
    /\ fst (AuthRepository.findByEmail Sample.env_up "carol@x.com"
              (snd (AuthRepository.create Sample.env_up
                      (Sample.entity "carol" "carol@x.com") Sample.world)))
       = Ok (Some e).
Proof.
  eexists. split; [reflexivity |].
  pose proof (create_then_lookup Sample.env_up (Sample.entity "carol" "carol@x.com")
                Sample.world (email := "carol@x.com") eq_refl eq_refl)
    as (_ & Hmail & _).
  apply Hmail. reflexivity.
Defined.

(** *** Lookup by username *)

Lemma is_space_lower_char (c : ascii) : is_space (lower_char c) = is_space c.
Proof.
  destruct c as [[] [] [] [] [] [] [] []]; reflexivity.
Qed.

Lemma trimStart_toLowerCase (s : string) :
  trimStart (toLowerCase s) = toLowerCase (trimStart s).
Proof.
  induction s as [| c s IH]; cbn; [reflexivity |].
  rewrite is_space_lower_char. destruct (is_space c); [exact IH | reflexivity].
Qed.

Lemma trimEnd_toLowerCase (s : string) :
  trimEnd (toLowerCase s) = toLowerCase (trimEnd s).
Proof.
  induction s as [| c s IH]; cbn; [reflexivity |].
  rewrite IH, is_space_lower_char.
  destruct (trimEnd s); cbn; [destruct (is_space c) |]; reflexivity.
Qed.

Lemma trim_toLowerCase (s : string) : trim (toLowerCase s) = toLowerCase (trim s).
Proof.
  unfold trim. now rewrite trimStart_toLowerCase, trimEnd_toLowerCase.
Qed.

Lemma normalized_lower_trim (u : string) : normalized (toLowerCase (trim u)).
Proof.
  unfold normalized. now rewrite trim_toLowerCase, trim_idem, toLowerCase_idem.
Qed.

Lemma findByUsername_found (env : Env) (u : string) (w : World) (e : Object) :
  fst (AuthRepository.findByUsername env u w) = Ok (Some e) ->
  get_prop "username" e = JStr (toLowerCase (trim u)).
Proof.
  unfold AuthRepository.findByUsername, try_catch, bind, AuthUser_findOne,
    store_call, read_authusers, ret, logger_error.
  destruct (down env CallFindOne); cbn; [discriminate |].
  destruct (find _ (authusers w)) as [d |] eqn:Hf; cbn; [| discriminate].
  intros [= <-]. apply find_some in Hf. destruct Hf as [_ Hm].
  apply (matches_FEq env) in Hm. exact Hm.
Qed.

(** X2. [findByUsername] answers only credentials whose stored username is
    the trimmed, lowercased input; so a credential whose stored username
    is not itself in trimmed lowercase form is answered for no input. *)
Theorem findByUsername_only_normalized (env : Env) (u : string) (w : World)
        (e : Object) :
  fst (AuthRepository.findByUsername env u w) = Ok (Some e) ->
  get_prop "username" e = JStr (toLowerCase (trim u))
  /\ forall s, get_prop "username" e = JStr s -> normalized s.
Proof.
  intros H. pose proof (findByUsername_found env u w H) as Hu.
  split; [exact Hu |].
  intros s Hs. rewrite Hu in Hs. injection Hs as <-. apply normalized_lower_trim.
Qed.

Lemma findByUsername_only_normalized_witness :
  get_prop "username" (AuthRepository.normalize Sample.bob)
  = JStr (toLowerCase (trim "  BOB ")).
Proof.
  apply (findByUsername_only_normalized Sample.env_up "  BOB " Sample.world).
  reflexivity.
Defined.

(** X3. A created account is found by username exactly when the username
    it was created with is in trimmed lowercase form: then every input
    that normalizes to it finds the created entity; otherwise no input
    finds it, since [create] stores the username as given while
    [findByUsername] normalizes what it looks for. *)
Theorem create_then_findByUsername (env : Env) (data : Object) (w : World)
        (e : Object) (name : string) :
  fst (AuthRepository.create env data w) = Ok (Some e) ->
  get_prop "username" data = JStr name ->
  (forall u, toLowerCase (trim u) = name -> down env CallFindOne = false ->
             fst (AuthRepository.findByUsername env u
                    (snd (AuthRepository.create env data w))) = Ok (Some e))
  /\ (~ normalized name ->
      forall u, fst (AuthRepository.findByUsername env u
                       (snd (AuthRepository.create env data w))) <> Ok (Some e)).
Proof.
  intros Hc Hn. destruct (create_success env data w Hc) as (He & Hst & Hno).
  unfold stores, both_created in Hst. injection Hst as Ha _.
  apply auth_conflict_none in Hno. destruct Hno as (_ & Hun & _).
  split.
  - intros u Hu Hup. rewrite findByUsername_answer, Ha, Hu, He by assumption.
    now rewrite (find_by_path_after_create env data w (path := "username")
                   (value := name)) by (cbn; auto).
  - intros Hnot u Hf. apply findByUsername_found in Hf.
    apply Hnot. rewrite He in Hf. unfold AuthRepository.normalize in Hf.
    change (get_prop "username" (props (createdCredential env data))
            = JStr (toLowerCase (trim u))) in Hf.
    rewrite (@created_path env data "username"), Hn in Hf by (cbn; auto).
    injection Hf as ->. apply normalized_lower_trim.
Qed.

Lemma create_then_findByUsername_witness :
  fst (AuthRepository.findByUsername Sample.env_up "Carol"
         (snd (AuthRepository.create Sample.env_up
                 (Sample.entity "Carol" "carol@x.com") Sample.world)))
  <> Ok (Some (AuthRepository.normalize
                 (createdCredential Sample.env_up
                    (Sample.entity "Carol" "carol@x.com")))).
Proof.
  pose proof (@create_then_findByUsername Sample.env_up
                (Sample.entity "Carol" "carol@x.com") Sample.world
                (AuthRepository.normalize
                   (createdCredential Sample.env_up
                      (Sample.entity "Carol" "carol@x.com")))
                "Carol" eq_refl eq_refl) as [_ H].
  apply H. discriminate.
Defined.

(** *** Delete *)

Lemma remove_doc_length (id : string) (l : list Doc) (d : Doc) :
  find (has_id id) l = Some d -> S (List.length (remove_doc id l)) = List.length l.
Proof.
  induction l as [| x l IH]; cbn; [discriminate |].
  destruct (has_id id x); [reflexivity |].
  intros H. cbn. now rewrite IH.
Qed.

Lemma remove_doc_keeps_others (id : string) (l : list Doc) (d : Doc) :
  In d l -> has_id id d = false -> In d (remove_doc id l).
Proof.
  intros Hin Hne. induction l as [| x l IH]; cbn in *; [assumption |].
  destruct (has_id id x) eqn:E.
  - destruct Hin as [-> | Hin]; [congruence | assumption].
  - destruct Hin as [-> | Hin]; [now left | right; auto].
Qed.

Lemma find_absent_id (id : string) (l : list Doc) :
  ~ In (canonical id) (map _id l) -> find (has_id id) l = None.
Proof.
  induction l as [| x l IH]; cbn; [reflexivity |].
  intros H. unfold has_id at 1.
  destruct (String.eqb_spec (_id x) (canonical id)) as [E | E]; [tauto |].
  apply IH. tauto.
Qed.

Lemma find_after_remove_doc (id : string) (l : list Doc) :
  NoDup (map _id l) -> find (has_id id) (remove_doc id l) = None.
Proof.
  induction l as [| x l IH]; cbn; [reflexivity |].
  intros H. inversion H as [| ? ? Hx Hl]; subst.
  destruct (has_id id x) eqn:E.
  - apply find_absent_id. apply String.eqb_eq in E. now rewrite <- E.
  - cbn. rewrite E. auto.
Qed.

(** What [deleteById] answers and leaves in the collections. *)
Lemma deleteById_effect (env : Env) (id : string) (w : World) :
  (fst (AuthRepository.deleteById env id w),
   stores (snd (AuthRepository.deleteById env id w)))
  = if isValid env id && negb (down env CallFindByIdAndDelete)
    then match find (has_id id) (authusers w) with
         | Some d => (Ok (Some (AuthRepository.normalize d)),
                      (remove_doc id (authusers w), users w))
         | None => (Ok None, stores w)
         end
    else (Ok None, stores w).
Proof.
  unfold AuthRepository.deleteById, try_catch, bind, AuthUser_findByIdAndDelete,
    cast_id, store_call, read_authusers, write_authusers, ret, throw,
    logger_error, stores.
  destruct (isValid env id); cbn; [| reflexivity].
  destruct (down env CallFindByIdAndDelete); cbn; [reflexivity |].
  rewrite find_canonical.
  destruct (find (has_id id) (authusers w)); cbn;
    [now rewrite remove_doc_canonical | reflexivity].
Qed.

(** X4. [deleteById] removes one credential and nothing else.  It never
    changes the profiles, so the profile created with the credential stays
    behind; on a well-formed id that denotes a stored credential (the
    store answering) it answers that credential, removes it, and keeps
    every credential the id does not denote; on an id that denotes no
    stored credential, in any spelling of its hex digits, it answers null
    and changes nothing. *)
Theorem deleteById_removes_one (env : Env) (id : string) (w : World) :
  users (snd (AuthRepository.deleteById env id w)) = users w
  /\ (forall d,
        isValid env id = true -> down env CallFindByIdAndDelete = false ->
        find (has_id id) (authusers w) = Some d ->
        fst (AuthRepository.deleteById env id w) = Ok (Some (AuthRepository.normalize d))
        /\ authusers (snd (AuthRepository.deleteById env id w))
           = remove_doc id (authusers w)
        /\ S (List.length (authusers (snd (AuthRepository.deleteById env id w))))
           = List.length (authusers w)
        /\ forall d', In d' (authusers w) -> has_id id d' = false ->
                      In d' (authusers (snd (AuthRepository.deleteById env id w))))
  /\ (find (has_id id) (authusers w) = None ->
      fst (AuthRepository.deleteById env id w) = Ok None
      /\ stores (snd (AuthRepository.deleteById env id w)) = stores w).
Proof.
  pose proof (deleteById_effect env id w) as H. unfold stores in H.
  split; [| split].
  - destruct (isValid env id && negb (down env CallFindByIdAndDelete));
      [destruct (find (has_id id) (authusers w)) |]; now injection H.
  - intros d Hv Hup Hf. rewrite Hv, Hup, Hf in H. cbn [andb negb] in H.
    injection H as Hr Ha _. split; [exact Hr |]. split; [exact Ha |].
    rewrite Ha. split; [now apply remove_doc_length with (d := d) |].
    intros d' Hin Hne. now apply remove_doc_keeps_others.
  - intros Hf. rewrite Hf in H. unfold stores.
    destruct (isValid env id && negb (down env CallFindByIdAndDelete));
      injection H as -> -> ->; auto.
Qed.

Lemma deleteById_removes_one_witness :
  fst (AuthRepository.deleteById Sample.env_up "650000000000000000000001" Sample.world)
  = Ok (Some (AuthRepository.normalize Sample.alice))
  /\ authusers (snd (AuthRepository.deleteById Sample.env_up
                       "650000000000000000000001" Sample.world))
     = [Sample.bob]
  /\ users (snd (AuthRepository.deleteById Sample.env_up
                   "650000000000000000000001" Sample.world))
     = users Sample.world.
Proof.
  pose proof (deleteById_removes_one Sample.env_up "650000000000000000000001"
                Sample.world) as (Hu & Hd & _).
  destruct (Hd Sample.alice eq_refl eq_refl eq_refl) as (Ha & Hr & _).
  split; [exact Ha |]. split; [exact Hr | exact Hu].
Defined.

(** X5. A deleted account is gone.  When no two credentials share an id,
    after [deleteById] on a well-formed id (the store answering the
    deletion) [findById] answers null for that id, and a second
    [deleteById] answers null. *)
Theorem deleteById_then_findById (env : Env) (id : string) (w : World) :
  unique_ids w ->
  isValid env id = true -> down env CallFindByIdAndDelete = false ->
  fst (AuthRepository.findById env id (snd (AuthRepository.deleteById env id w)))
  = Ok None
  /\ fst (AuthRepository.deleteById env id (snd (AuthRepository.deleteById env id w)))
     = Ok None.
Proof.
  intros Hu Hv Hup.
  pose proof (deleteById_effect env id w) as H.
  rewrite Hv, Hup in H. cbn [andb negb] in H. unfold stores in H.
  assert (Hgone : find (has_id id)
                       (authusers (snd (AuthRepository.deleteById env id w))) = None).
  { destruct (find (has_id id) (authusers w)) as [d |] eqn:Hf;
      injection H as _ -> _; [now apply find_after_remove_doc | exact Hf]. }
  clear H. split.
  - remember (snd (AuthRepository.deleteById env id w)) as w' eqn:Ew.
    unfold AuthRepository.findById, try_catch, bind, AuthUser_findById, cast_id,
      store_call, read_authusers, ret, throw, logger_error.
    rewrite Hv. cbn. destruct (down env CallFindById); cbn; [reflexivity |].
    now rewrite find_canonical, Hgone.
  - pose proof (deleteById_effect env id
                  (snd (AuthRepository.deleteById env id w))) as H.
    rewrite Hv, Hup, Hgone in H. cbn [andb negb] in H. now injection H.
Qed.

Lemma deleteById_then_findById_witness :
  fst (AuthRepository.findById Sample.env_up "650000000000000000000001"
         (snd (AuthRepository.deleteById Sample.env_up "650000000000000000000001"
                 Sample.world))) = Ok None.
Proof.
  apply (@deleteById_then_findById Sample.env_up "650000000000000000000001"
            Sample.world); [| reflexivity | reflexivity].
  unfold unique_ids. cbn.
  repeat (constructor; [cbn; intuition discriminate |]). constructor.
Defined.

(** *** Updates *)

Lemma get_prop_set_same (k : string) (v : JsVal) (o : Object) :
  get_prop k (set_prop k v o) = v.
Proof.
  induction o as [| [k' v'] o IH]; cbn.
  - now rewrite String.eqb_refl.
  - destruct (String.eqb k k') eqn:E; cbn.
    + now rewrite String.eqb_refl.
    + now rewrite E.
Qed.

Lemma get_prop_set_other (k k' : string) (v : JsVal) (o : Object) :
  k <> k' -> get_prop k (set_prop k' v o) = get_prop k o.
Proof.
  intros Hne. induction o as [| [k0 v0] o IH]; cbn.
  - now rewrite (proj2 (String.eqb_neq k k') Hne).
  - destruct (String.eqb_spec k' k0) as [<- | E]; cbn.
    + now rewrite (proj2 (String.eqb_neq k k') Hne).
    + now rewrite IH.
Qed.

Lemma replace_doc_keeps_others (id : string) (l : list Doc) (d' d : Doc) :
  In d l -> has_id id d = false -> In d (replace_doc id d' l).
Proof.
  intros Hin Hne. induction l as [| x l IH]; cbn in *; [assumption |].
  destruct (has_id id x) eqn:E.
  - destruct Hin as [-> | Hin]; [congruence | now right].
  - destruct Hin as [-> | Hin]; [now left | right; auto].
Qed.

Lemma replace_doc_length (id : string) (l : list Doc) (d' : Doc) :
  List.length (replace_doc id d' l) = List.length l.
Proof.
  induction l as [| x l IH]; cbn; [reflexivity |].
  destruct (has_id id x); cbn; [reflexivity | now rewrite IH].
Qed.

(** X6. Clearing the refresh token changes that one path.  On a
    well-formed id of a stored credential (the store answering),
    [removeRefreshTokenById] answers the credential with a null
    [refreshToken], the stored credential under that id has a null
    [refreshToken] and every other path as before, the profiles are
    untouched, and a following [findById] answers the same entity. *)
Theorem removeRefreshToken_clears (env : Env) (id : string) (w : World) (d : Doc) :
  isValid env id = true -> down env CallFindByIdAndUpdate = false ->
  find (has_id id) (authusers w) = Some d ->
  exists d',
    fst (AuthRepository.removeRefreshTokenById env id w)
    = Ok (Some (AuthRepository.normalize d'))
    /\ get_prop "refreshToken" (AuthRepository.normalize d') = JNull
    /\ find (has_id id)
            (authusers (snd (AuthRepository.removeRefreshTokenById env id w)))
       = Some d'
    /\ get_prop "refreshToken" (props d') = JNull
    /\ (forall k, k <> "refreshToken" -> get_prop k (props d') = get_prop k (props d))
    /\ users (snd (AuthRepository.removeRefreshTokenById env id w)) = users w
    /\ (down env CallFindById = false ->
        fst (AuthRepository.findById env id
               (snd (AuthRepository.removeRefreshTokenById env id w)))
        = Ok (Some (AuthRepository.normalize d'))).
Proof.
  intros Hv Hup Hf.
  exists (mkDoc (_id d) (set_prop "refreshToken" JNull (props d))).
  rewrite removeRefreshTokenById_is_update.
  pose proof (updateById_stores env id [("refreshToken", JNull)] w) as Hs.
  rewrite Hv, Hup, Hf in Hs. cbn [andb negb apply_update fold_left fst snd] in Hs.
  unfold stores in Hs. injection Hs as Ha Hu.
  assert (Hfound : find (has_id id)
                     (authusers (snd (AuthRepository.updateById env id
                                        [("refreshToken", JNull)] w)))
                   = Some (mkDoc (_id d) (set_prop "refreshToken" JNull (props d)))).
  { rewrite Ha. apply find_replace_doc with (d := d); [exact Hf |].
    change (has_id id d = true). now apply find_has_id with (l := authusers w). }
  split.
  { unfold AuthRepository.updateById, try_catch, bind, AuthUser_findByIdAndUpdate,
      cast_id, store_call, read_authusers, write_authusers, ret, throw.
    rewrite Hv. cbn. rewrite Hup. cbn. now rewrite find_canonical, Hf. }
  split.
  { unfold AuthRepository.normalize. cbn [props].
    change (nullish (get_prop "refreshToken"
                       (set_prop "refreshToken" JNull (props d))) JNull = JNull).
    now rewrite get_prop_set_same. }
  split; [exact Hfound |].
  split; [cbn [props]; apply get_prop_set_same |].
  split; [intros k Hk; cbn [props]; now apply get_prop_set_other |].
  split; [exact Hu |].
  intros Hdown.
  remember (snd (AuthRepository.updateById env id [("refreshToken", JNull)] w))
    as w' eqn:Ew.
  unfold AuthRepository.findById, try_catch, bind, AuthUser_findById, cast_id,
    store_call, read_authusers, ret, throw.
  rewrite Hv. cbn. rewrite Hdown. cbn. now rewrite find_canonical, Hfound.
Qed.

Lemma removeRefreshToken_clears_witness :
  exists d',
    fst (AuthRepository.removeRefreshTokenById Sample.env_up
           "650000000000000000000001" Sample.world)
    = Ok (Some (AuthRepository.normalize d'))
    /\ get_prop "refreshToken" (AuthRepository.normalize d') = JNull
    /\ get_prop "refreshToken" (props Sample.alice) = JStr "refresh-1".
Proof.
  destruct (removeRefreshToken_clears Sample.env_up "650000000000000000000001"
              Sample.world (d := Sample.alice) eq_refl eq_refl eq_refl)
    as (d' & Ha & Hn & _).
  exists d'. split; [exact Ha |]. split; [exact Hn | reflexivity].
Defined.

(** X7. [updateById] touches one credential at most.  Whatever the id, the
    update document and the state of the store, the profiles are left as
    they were, the number of credentials is unchanged, and every
    credential that the id does not denote (its [_id] is not the id, in
    any spelling of the hex digits) is still stored as it was. *)
Theorem updateById_frame (env : Env) (id : string) (data : Object) (w : World) :
  users (snd (AuthRepository.updateById env id data w)) = users w
  /\ List.length (authusers (snd (AuthRepository.updateById env id data w)))
     = List.length (authusers w)
  /\ forall d, In d (authusers w) -> has_id id d = false ->
               In d (authusers (snd (AuthRepository.updateById env id data w))).
Proof.
  pose proof (updateById_stores env id data w) as Hs. unfold stores in Hs.
  destruct (isValid env id && negb (down env CallFindByIdAndUpdate)).
  - destruct (find (has_id id) (authusers w)) as [d0 |]; injection Hs as -> ->.
    + split; [reflexivity |]. split; [apply replace_doc_length |].
      intros d Hin Hne. now apply replace_doc_keeps_others.
    + auto.
  - injection Hs as -> ->. auto.
Qed.

(** X8. The lookups and the listing only read.  [findAll], [findByEmail],
    [findByUsername] and [findById] leave both collections as they were,
    whatever they are asked and whether or not the store answers. *)
Theorem queries_read_only (env : Env) (op : Operation) (w : World) :
  is_query op = true -> stores (snd (perform env op w)) = stores w.
Proof.
  destruct op; try discriminate; intros _;
    run_repository; cbn; split_on_store; reflexivity.
Qed.

Lemma queries_read_only_witness :
  stores (snd (perform Sample.env_down (OpFindAll Sample.no_query) Sample.world))
  = stores Sample.world.
Proof.
  apply (queries_read_only Sample.env_down (OpFindAll Sample.no_query) Sample.world).
  reflexivity.
Defined.

(** *** More on the listing *)

Lemma firstn_add_skipn {A} (a b : nat) (l : list A) :
  firstn (a + b) l = firstn a l ++ firstn b (skipn a l).
Proof.
  revert l. induction a as [| a IH]; intros l; cbn; [reflexivity |].
  destruct l as [| x l]; cbn.
  - now destruct b.
  - now rewrite IH.
Qed.

Lemma page_rows_slice (env : Env) (params : IQueryParams) (w : World) (l : Z) (i : nat) :
  default 10%Z (limit params) = l -> (1 <= l)%Z ->
  down env CallFind = false -> down env CallCountDocuments = false ->
  page_rows env params w (Z.of_nat (S i))
  = map dashboardRow
        (firstn (Z.to_nat l) (skipn (i * Z.to_nat l) (ordered env params w))).
Proof.
  intros Hl Hl1 Hf Hc. unfold page_rows.
  pose proof (findAll_answer env (page_of params (Z.of_nat (S i))) w) as H.
  cbn zeta in H. rewrite H. clear H.
  cbn [page_of page limit default]. rewrite Hl, Hf, Hc. cbn [negb andb].
  assert (Hs : ((Z.of_nat (S i) - 1) * l = Z.of_nat i * l)%Z) by lia.
  rewrite Hs.
  assert (Hn : Z.ltb (Z.of_nat i * l) 0 = false) by (apply Z.ltb_ge; nia).
  rewrite Hn. cbn [negb listed data].
  rewrite apply_limit_positive by assumption.
  rewrite Z2Nat.inj_mul, Nat2Z.id by lia.
  reflexivity.
Qed.

(** X9. The pages of a listing partition it.  While the store answers and
    the collection does not change, for a limit [l >= 1] and a query under
    which no two matching credentials have equal sort keys (so that their
    order is fixed by the sort), the rows of pages 1 to [n], one after the
    other, are the rows of the first [n * l] ordered matching credentials:
    no row is repeated or skipped between pages; and once [n * l] reaches
    the number of matching credentials they are all of them. *)
Theorem pages_partition (env : Env) (params : IQueryParams) (w : World)
        (l : Z) (n : nat) :
  no_ties env params w ->
  default 10%Z (limit params) = l -> (1 <= l)%Z ->
  down env CallFind = false -> down env CallCountDocuments = false ->
  flat_map (fun i => page_rows env params w (Z.of_nat (S i))) (seq 0 n)
  = map dashboardRow (firstn (n * Z.to_nat l) (ordered env params w))
  /\ (List.length (matching env params w) <= n * Z.to_nat l ->
      flat_map (fun i => page_rows env params w (Z.of_nat (S i))) (seq 0 n)
      = map dashboardRow (ordered env params w)).
Proof.
  intros _ Hl Hl1 Hf Hc.
  assert (Hall : flat_map (fun i => page_rows env params w (Z.of_nat (S i))) (seq 0 n)
                 = map dashboardRow (firstn (n * Z.to_nat l) (ordered env params w))).
  { induction n as [| n IH]; [reflexivity |].
    rewrite seq_S, flat_map_app, IH. cbn [flat_map Nat.add].
    rewrite app_nil_r, (@page_rows_slice env params w l n Hl Hl1 Hf Hc).
    rewrite <- map_app, <- firstn_add_skipn.
    f_equal. f_equal. lia. }
  split; [exact Hall |].
  intros Hlen. rewrite Hall. f_equal. apply firstn_all2.
  unfold ordered. rewrite (Permutation_length (sort_by_Permutation _ _)).
  exact Hlen.
Qed.

Lemma pages_partition_witness :
  page_rows Sample.env_up (mkQuery None (Some 1%Z) None None None) Sample.world 1
  ++ page_rows Sample.env_up (mkQuery None (Some 1%Z) None None None) Sample.world 2
  = map dashboardRow
        (ordered Sample.env_up (mkQuery None (Some 1%Z) None None None) Sample.world).
Proof.
  assert (Hties : no_ties Sample.env_up (mkQuery None (Some 1%Z) None None None)
                          Sample.world).
  { intros a b Ha Hb H1 H2. cbn in Ha, Hb.
    destruct Ha as [<- | [<- | []]]; destruct Hb as [<- | [<- | []]];
      first [reflexivity | vm_compute in H1; discriminate
             | vm_compute in H2; discriminate]. }
  pose proof (@pages_partition Sample.env_up (mkQuery None (Some 1%Z) None None None)
                Sample.world 1%Z 2 Hties eq_refl ltac:(lia) eq_refl eq_refl)
    as [_ H].
  cbn [seq flat_map Z.of_nat Pos.of_succ_nat Pos.succ] in H.
  rewrite app_nil_r in H. apply H. cbn. lia.
Defined.

(** X10. A search text of whitespace only is no search: the listing it
    gives, and the state it leaves, are those of the same query without a
    search text. *)
Theorem findAll_blank_search (env : Env) (params : IQueryParams) (w : World)
        (s : string) :
  trim s = "" ->
  AuthRepository.findAll env (with_search params (Some s)) w
  = AuthRepository.findAll env (with_search params None) w.
Proof.
  intros Hs. unfold AuthRepository.findAll, with_search.
  cbn [page limit search sortBy sortOrder default].
  assert (E : AuthRepository.searchFilter s = AuthRepository.searchFilter "").
  { unfold AuthRepository.searchFilter. now rewrite Hs. }
  now rewrite E.
Qed.

Lemma findAll_blank_search_witness :
  AuthRepository.findAll Sample.env_up (with_search Sample.no_query (Some "   ")) Sample.world
  = AuthRepository.findAll Sample.env_up (with_search Sample.no_query None) Sample.world.
Proof.
  apply (@findAll_blank_search Sample.env_up Sample.no_query Sample.world "   ").
  reflexivity.
Defined.

(** X11. [findAll] does not guard a limit of zero.  With [limit] 0 (the
    store answering, the page not below 1) the listing returns every
    ordered matching credential from the skip on, which is 0, and its
    [totalPages] is not a number of pages: NaN when nothing matches,
    Infinity otherwise. *)
Theorem findAll_limit_zero (env : Env) (params : IQueryParams) (w : World) :
  limit params = Some 0%Z ->
  down env CallFind = false -> down env CallCountDocuments = false ->
  exists pg w',
    AuthRepository.findAll env params w = (Ok pg, w')
    /\ data pg = map dashboardRow (ordered env params w)
    /\ p_total (pagination pg) = Z.of_nat (List.length (matching env params w))
    /\ p_totalPages (pagination pg)
       = match matching env params w with
         | [] => NaN
         | _ => PosInfinity
         end.
Proof.
  intros Hl Hf Hc.
  destruct (findAll_answers env params w) as (pg & w' & E & _).
  exists pg, w'. split; [exact E |].
  pose proof (findAll_answer env params w) as H. cbn zeta in H.
  rewrite E, Hl, Hf, Hc in H. cbn [fst default negb andb] in H.
  rewrite Z.mul_0_r in H. cbn in H. injection H as ->. cbn.
  split; [reflexivity |]. split; [reflexivity |].
  now destruct (matching env params w).
Qed.

Lemma findAll_limit_zero_witness :
  exists pg w',
    AuthRepository.findAll Sample.env_up (mkQuery None (Some 0%Z) None None None)
                           Sample.world = (Ok pg, w')
    /\ p_totalPages (pagination pg) = PosInfinity.
Proof.
  destruct (findAll_limit_zero Sample.env_up (mkQuery None (Some 0%Z) None None None)
              Sample.world eq_refl eq_refl eq_refl) as (pg & w' & E & _ & _ & Ht).
  exists pg, w'. split; [exact E | exact Ht].
Defined.

(** X12. With a search text that is not blank, every row of the listing
    belongs to a stored credential whose [username] or whose [email]
    matches the text as given (not trimmed), case-insensitively, under the
    store's regular expressions; no other path is searched. *)
Theorem findAll_rows_match_search (env : Env) (params : IQueryParams) (w : World)
        (s : string) (o : Object) :
  search params = Some s -> nonempty (trim s) = true ->
  In o (listed (fst (AuthRepository.findAll env params w))) ->
  exists d,
    In d (authusers w) /\ o = dashboardRow d
    /\ ((exists u, get_prop "username" (props d) = JStr u
                   /\ regexTest env s "i" u = true)
        \/ (exists m, get_prop "email" (props d) = JStr m
                      /\ regexTest env s "i" m = true)).
Proof.
  intros Hs Hne.
  pose proof (findAll_answer env params w) as H. cbn zeta in H. rewrite H.
  destruct (negb (down env CallFind) && negb (down env CallCountDocuments) && _);
    cbn [listed data]; [| intros []].
  intros Hin. apply in_map_iff in Hin. destruct Hin as (d & <- & Hd).
  exists d.
  apply In_apply_limit, In_skipn in Hd. unfold ordered in Hd.
  apply (Permutation_in _ (sort_by_Permutation _ _)) in Hd.
  unfold matching in Hd. apply filter_In in Hd. destruct Hd as [Hin Hm].
  split; [exact Hin |]. split; [reflexivity |].
  rewrite Hs in Hm. cbn [default] in Hm.
  unfold AuthRepository.searchFilter in Hm. rewrite Hne in Hm.
  cbn [matches] in Hm. apply orb_true_iff in Hm.
  destruct Hm as [Hm | Hm]; [left | right].
  - destruct (get_prop "username" (props d)); try discriminate. eauto.
  - destruct (get_prop "email" (props d)); try discriminate. eauto.
Qed.

Lemma findAll_rows_match_search_witness :
  exists d,
    In d (authusers Sample.world) /\ dashboardRow Sample.bob = dashboardRow d
    /\ ((exists u, get_prop "username" (props d) = JStr u
                   /\ regexTest Sample.env_up "BOB" "i" u = true)
        \/ (exists m, get_prop "email" (props d) = JStr m
                      /\ regexTest Sample.env_up "BOB" "i" m = true)).
Proof.
  apply (@findAll_rows_match_search Sample.env_up
            (mkQuery None None (Some "BOB") None None) Sample.world "BOB");
    [reflexivity | reflexivity | left; reflexivity].
Defined.

(* ------------------------------------------------------------------ *)
(** ** Further properties of the schemas *)

Lemma password_rule_keeps (raw p : string) :
  Schemas.password_rule raw = Some p -> p = raw.
Proof.
  unfold Schemas.password_rule. destruct (_ && _); [now intros [= <-] | discriminate].
Qed.

Lemma register_email_again (isEmail : string -> bool) (raw e : string) :
  isEmail "" = false ->
  Schemas.register_email isEmail raw = Some e ->
  Schemas.register_email isEmail e = Some e.
Proof.
  intros H0. unfold Schemas.register_email.
  destruct (nonempty raw && isEmail (trim raw)) eqn:E; [| discriminate].
  intros [= <-]. apply andb_true_iff in E. destruct E as [_ E].
  rewrite trim_idem, E.
  destruct (trim raw); [congruence | reflexivity].
Qed.

(** X13. Validation of a registration is idempotent.  For an email check
    that refuses the empty string, what [registerUserSchema] lets through
    it lets through again, unchanged. *)
Theorem registerUserSchema_idempotent (isEmail : string -> bool)
        (input out : Schemas.RegisterUser) :
  isEmail "" = false ->
  Schemas.registerUserSchema isEmail input = Some out ->
  Schemas.registerUserSchema isEmail out = Some out.
Proof.
  intros H0. unfold Schemas.registerUserSchema.
  destruct (Schemas.register_username (Schemas.r_username input)) as [u |] eqn:Hu;
    [| discriminate].
  destruct (Schemas.register_email isEmail (Schemas.r_email input)) as [e |] eqn:He;
    [| discriminate].
  destruct (Schemas.password_rule (Schemas.r_password input)) as [p |] eqn:Hp;
    [| discriminate].
  intros [= <-]. cbn [Schemas.r_username Schemas.r_email Schemas.r_password].
  rewrite (register_email_again isEmail _ H0 He).
  pose proof (password_rule_keeps _ Hp) as ->. rewrite Hp.
  assert (Hu' : Schemas.register_username u = Some u).
  { revert Hu. unfold Schemas.register_username.
    destruct (nonempty (Schemas.r_username input) && _ && _) eqn:E; [| discriminate].
    intros [= <-]. rewrite normalized_lower_trim.
    apply andb_true_iff in E. destruct E as [E E3].
    apply andb_true_iff in E. destruct E as [_ E2].
    rewrite E2, E3. apply andb_true_iff in E3. destruct E3 as [E3 _].
    now rewrite E3. }
  now rewrite Hu'.
Qed.

Lemma registerUserSchema_idempotent_witness :
  Schemas.registerUserSchema Schemas.zod_email
    (Schemas.mkRegister "alice_1" "Bob@Example.COM" "Passw0rd!")
  = Some (Schemas.mkRegister "alice_1" "Bob@Example.COM" "Passw0rd!").
Proof.
  apply (@registerUserSchema_idempotent Schemas.zod_email
           (Schemas.mkRegister "  Alice_1 " " Bob@Example.COM " "Passw0rd!"));
    reflexivity.
Defined.

(** X14. What registration lets through, login and password reset let
    through.  The email and password of an accepted registration pass
    [loginUserSchema] and [resetPasswordSchema] with the same email and
    password registration came out with; and so do, for an email check
    that refuses the empty string, that email and password themselves. *)
Theorem register_then_login_schema (isEmail : string -> bool)
        (input out : Schemas.RegisterUser) :
  Schemas.registerUserSchema isEmail input = Some out ->
  let given := Schemas.mkCredentials (Schemas.r_email input) (Schemas.r_password input) in
  let kept := Schemas.mkCredentials (Schemas.r_email out) (Schemas.r_password out) in
  Schemas.loginUserSchema isEmail given = Some kept
  /\ Schemas.resetPasswordSchema isEmail given = Some kept
  /\ (isEmail "" = false ->
      Schemas.loginUserSchema isEmail kept = Some kept
      /\ Schemas.resetPasswordSchema isEmail kept = Some kept).
Proof.
  unfold Schemas.registerUserSchema, Schemas.loginUserSchema,
    Schemas.resetPasswordSchema.
  destruct (Schemas.register_username (Schemas.r_username input)) as [u |];
    [| discriminate].
  destruct (Schemas.register_email isEmail (Schemas.r_email input)) as [e |] eqn:He;
    [| discriminate].
  destruct (Schemas.password_rule (Schemas.r_password input)) as [p |] eqn:Hp;
    [| discriminate].
  intros [= <-]. cbn. rewrite He, Hp.
  split; [reflexivity |]. split; [reflexivity |].
  intros H0. rewrite (register_email_again isEmail _ H0 He).
  pose proof (password_rule_keeps _ Hp) as ->. rewrite Hp. auto.
Qed.

Lemma register_then_login_schema_witness :
  Schemas.loginUserSchema Schemas.zod_email
    (Schemas.mkCredentials " Bob@Example.COM " "Passw0rd!")
  = Some (Schemas.mkCredentials "Bob@Example.COM" "Passw0rd!").
Proof.
  pose proof (@register_then_login_schema Schemas.zod_email
                (Schemas.mkRegister "  Alice_1 " " Bob@Example.COM " "Passw0rd!")
                (Schemas.mkRegister "alice_1" "Bob@Example.COM" "Passw0rd!")
                eq_refl) as (H & _).
  exact H.
Defined.





(* ------------------------------------------------------------------ *)
(** ** Further properties of the controller *)

(** X16. Logout clears the cookies only after the service has revoked the
    session.  Without a user id on the request the handler fails with
    status 400 and the service is not reached; when the service fails, its
    failure is the handler's and no cookie is touched; when the service
    succeeds, the reply clears [accessToken] and [refreshToken], in that
    order, and nothing else. *)
Theorem logout_clears_cookies_after_service (logoutUser : JsVal -> M unit)
        (req : HttpRequest) (w : World) :
  let userId := optional_prop "id" (http_user req) in
  (truthy userId = false ->
   AuthController.logout logoutUser req w
   = (Throw (ApiExn (mkApiError "User ID missing" 400 BAD_REQUEST)), w))
  /\ (truthy userId = true ->
      forall e w', logoutUser userId w = (Throw e, w') ->
                   AuthController.logout logoutUser req w = (Throw e, w'))
  /\ (truthy userId = true ->
      forall w', logoutUser userId w = (Ok tt, w') ->
                 exists reply,
                   AuthController.logout logoutUser req w = (Ok reply, w')
                   /\ reply_cookies reply
                      = [ClearCookie "accessToken"; ClearCookie "refreshToken"]).
Proof.
  cbn zeta. unfold AuthController.logout.
  destruct (truthy (optional_prop "id" (http_user req))); cbn [negb].
  - split; [discriminate |]. split.
    + intros _ e w' H. unfold bind. now rewrite H.
    + intros _ w' H. unfold bind, ret. rewrite H. eauto.
  - split; [reflexivity |]. split; discriminate.
Qed.

Lemma logout_clears_cookies_after_service_witness :
  AuthController.logout (fun _ => throw (StoreExn StoreUnavailable))
    (mkHttp None (Some [("id", JStr "650000000000000000000001")]) None None)
    Sample.world
  = (Throw (StoreExn StoreUnavailable), Sample.world).
Proof.
  pose proof (logout_clears_cookies_after_service
                (fun _ => throw (StoreExn StoreUnavailable))
                (mkHttp None (Some [("id", JStr "650000000000000000000001")]) None None)
                Sample.world) as (_ & H & _).
  apply H; reflexivity.
Defined.

(** X17. Where the refresh handler takes the token from, and what it gives
    back.  A truthy [refreshToken] cookie is the token presented to the
    service, whatever the body holds; without one (no cookies, no such
    cookie, or an empty one) the [refreshToken] of the body is presented.
    A successful reply sets the [accessToken] cookie to the token of the
    service, sets no other cookie and carries no data. *)
Theorem refreshAccessToken_token_source (refresh : JsVal -> M Object)
        (req : HttpRequest) (w : World) :
  let fromCookie := optional_prop "refreshToken" (http_cookies req) in
  (truthy fromCookie = true ->
   forall body,
     AuthController.refreshAccessToken refresh req w
     = AuthController.refreshAccessToken refresh
         (mkHttp (http_params_id req) (http_user req) (http_cookies req) body) w)
  /\ (truthy fromCookie = false ->
      AuthController.refreshAccessToken refresh req w
      = AuthController.refreshAccessToken refresh
          (mkHttp (http_params_id req) (http_user req) None (http_body req)) w)
  /\ (forall reply w',
         AuthController.refreshAccessToken refresh req w = (Ok reply, w') ->
         reply_data reply = JUndefined
         /\ exists r w0,
              refresh (or_else fromCookie (optional_prop "refreshToken" (http_body req))) w
              = (Ok r, w0)
              /\ reply_cookies reply = [SetCookie "accessToken" (get_prop "accessToken" r)]).
Proof.
  cbn zeta. unfold AuthController.refreshAccessToken.
  cbn [http_cookies http_body].
  split; [| split].
  - intros Ht body. unfold or_else. now rewrite Ht.
  - intros Ht. unfold or_else. rewrite Ht. reflexivity.
  - intros reply w'. unfold bind, ret.
    destruct (refresh _ w) as [[r | e] w0] eqn:E; [| discriminate].
    intros [= <- <-]. split; [reflexivity |]. eauto.
Qed.

Lemma refreshAccessToken_token_source_witness :
  AuthController.refreshAccessToken
    (fun token => ret [("accessToken", token)])
    (mkHttp None None (Some [("refreshToken", JStr "from-cookie")])
            (Some [("refreshToken", JStr "from-body")])) Sample.world
  = AuthController.refreshAccessToken
      (fun token => ret [("accessToken", token)])
      (mkHttp None None (Some [("refreshToken", JStr "from-cookie")]) None)
      Sample.world.
Proof.
  pose proof (refreshAccessToken_token_source
                (fun token => ret [("accessToken", token)])
                (mkHttp None None (Some [("refreshToken", JStr "from-cookie")])
                        (Some [("refreshToken", JStr "from-body")])) Sample.world)
    as (H & _).
  apply (H eq_refl None).
Defined.

(* ------------------------------------------------------------------ *)
(** ** What the lookups hand out *)

(** X18. A lookup answers the whole credential.  What [findByEmail],
    [findByUsername] and [findById] answer is the entity of a stored
    credential with its id and with the password hash and the refresh
    token as stored (null for a missing token): unlike the rows of the
    listing, these answers are not cut down to the account view. *)
Theorem lookups_answer_whole_credential (env : Env) (op : Operation) (w : World)
        (e : Object) :
  is_lookup op = true ->
  fst (perform env op w) = Ok (Entity (Some e)) ->
  exists d,
    In d (authusers w)
    /\ e = AuthRepository.normalize d
    /\ get_prop "id" e = JStr (_id d)
    /\ get_prop "password" e = get_prop "password" (props d)
    /\ get_prop "refreshToken" e = nullish (get_prop "refreshToken" (props d)) JNull.
Proof.
  destruct op; try discriminate; intros _; run_repository; cbn;
    repeat match goal with
           | |- context [if ?c then _ else _] => destruct c eqn:?; cbn
           end;
    try discriminate;
    match goal with
    | |- context [find ?f ?l] => destruct (find f l) as [d |] eqn:Hf; cbn
    end;
    try discriminate; intros [= <-];
    apply find_some in Hf; destruct Hf as [Hf _];
    exists d; repeat split; exact Hf.
Qed.

Lemma lookups_answer_whole_credential_witness :
  exists d,
    In d (authusers Sample.world)
    /\ AuthRepository.normalize Sample.alice = AuthRepository.normalize d
    /\ get_prop "id" (AuthRepository.normalize Sample.alice) = JStr (_id d)
    /\ get_prop "password" (AuthRepository.normalize Sample.alice)
       = get_prop "password" (props d)
    /\ get_prop "refreshToken" (AuthRepository.normalize Sample.alice)
       = nullish (get_prop "refreshToken" (props d)) JNull.
Proof.
  apply (@lookups_answer_whole_credential Sample.env_up
           (OpFindByEmail "alice@x.com") Sample.world); reflexivity.
Defined.

(* ------------------------------------------------------------------ *)
(** ** Registration *)








(** *** Code units above 127 *)

(** The code queries the username of [E acute, V, A, space] as
    [e acute, v, a]; the no-break space is trimmed like a space. *)
Example toLowerCase_trim_latin1 :
  toLowerCase (trim (code_units [201; 86; 65; 32])) = code_units [233; 118; 97]
  /\ trim (code_units [160; 97; 160]) = "a"
  /\ trim (code_units [160]) = "".
Proof.
  repeat split.
Qed.

(** An id in upper-case hex digits denotes the credential stored under the
    lower-case ones. *)
Example findById_reads_hex_case :
  fst (AuthRepository.findById
         (mkEnv (fun _ => false) "65000000000000000000000c" 1000 Sample.hex24
                (fun _ _ _ => false) false)
         "65000000000000000000000A"
         (mkWorld [Sample.account "65000000000000000000000a" "ann" "ann@x.com" 5 JNull]
                  [] [] []))
  = Ok (Some (AuthRepository.normalize
                (Sample.account "65000000000000000000000a" "ann" "ann@x.com" 5 JNull))).
Proof.
  reflexivity.
Qed.
